(** * o3-search-mcp: a shallow embedding of [src/index.ts]

    The program is one TypeScript module: it reads its configuration from
    the process environment, registers the single tool [o3-search] on an MCP
    server and runs [main()], which connects the stdio transport, arms the
    process timeout and installs the shutdown listeners.

    The embedding follows the module top to bottom:
    - [Js]        the few JavaScript primitives the module relies on
                  ([||] on strings, [parseInt], [instanceof Error],
                  number-to-string conversion in template literals);
    - [Zod]       the fragment of zod used by the input schema;
    - [Config]    the [config] object built from [process.env];
    - [Runtime]   the process state and a state/exception/exit monad in
                  which the effectful code is written;
    - [Handler]   the [o3-search] callback;
    - [Lifecycle] [main()], [shutdown] and the event listeners, run by an
                  event-loop step function. *)

From Stdlib Require Import ZArith Bool Ascii String.
From stdpp Require Import base option list strings gmap pretty.

Local Open Scope string_scope.
Local Open Scope Z_scope.

(* ===================================================================== *)
(** ** JavaScript primitives *)
(* ===================================================================== *)

Module Js.

(** A JavaScript number as far as this program produces one: the result
    of [parseInt], which is [NaN], an infinity, or a double whose value is
    an integer.  [Num z] is the double of value [z]; [-0] is [Num 0] (the
    program only prints the number and passes it on as a delay or a
    count, where the two zeros behave alike). *)
Inductive number :=
| NaN
| Num (z : Z)
| Infinity (negative : bool).

(** The values that can travel as a thrown exception, a rejection reason
    or a tool argument.  [VError] is an object whose prototype chain
    contains [Error.prototype]; its [message] is a string, as the
    TypeScript library type [Error] declares.  [VObject] is any other
    object, given by its own enumerable properties. *)
#[warnings="-register-all"] Inductive value :=
| VUndefined
| VNull
| VBool (b : bool)
| VNumber (n : number)
| VString (s : string)
| VObject (props : list (string * value))
| VError (name message : string).

(** [v instanceof Error] *)
Definition instanceof_Error (v : value) : bool :=
  match v with
  | VError _ _ => true
  | _ => false
  end.

(** [e.message] for a value narrowed to [Error] by the test above.  The
    other cases are never evaluated by the program. *)
Definition message (v : value) : string :=
  match v with
  | VError _ m => m
  | _ => ""
  end.

(** Property read [o.k] on an object value; a missing property and a
    read on a primitive both give [undefined]. *)
Fixpoint get_prop (k : string) (props : list (string * value)) : value :=
  match props with
  | [] => VUndefined
  | (k', v) :: rest => if String.eqb k k' then v else get_prop k rest
  end.

Definition get (v : value) (k : string) : value :=
  match v with
  | VObject props => get_prop k props
  | _ => VUndefined
  end.

(** ToBoolean on a value of type [string | undefined]: [undefined] and
    the empty string are falsy, every other string is truthy. *)
Definition truthy (o : option string) : bool :=
  match o with
  | None => false
  | Some "" => false
  | Some _ => true
  end.

(** [a || b] where [a : string | undefined] and [b : string]. *)
Definition or (a : option string) (b : string) : string :=
  match a with
  | Some s => if truthy a then s else b
  | None => b
  end.

(** *** [parseInt(string)] with the radix left out

    Leading white space is skipped, an optional sign and an optional
    [0x]/[0X] prefix are read, then the longest run of digits of the
    radix; no digit at all gives [NaN].  The integer read is rounded to
    the nearest double, ties to even, as V8 does for numerals of any
    length.

    Strings are the UTF-8 encodings of the JavaScript strings.  The white
    space of ECMAScript is TAB, LF, VT, FF, CR, SP (one byte each), U+00A0
    (two bytes), and U+1680, U+2000 to U+200A, U+2028, U+2029, U+202F,
    U+205F, U+3000 and U+FEFF (three bytes each). *)

Definition is_white_space (c : ascii) : bool :=
  let n := Z.of_nat (nat_of_ascii c) in
  (n =? 9) || (n =? 10) || (n =? 11) || (n =? 12) || (n =? 13) || (n =? 32).

(** The first byte of a white space character of two or three bytes. *)
Definition white_space_lead (c : ascii) : bool :=
  let n := Z.of_nat (nat_of_ascii c) in
  (n =? 194) || (n =? 225) || (n =? 226) || (n =? 227) || (n =? 239).

Definition is_white_space2 (c1 c2 : ascii) : bool :=
  let n1 := Z.of_nat (nat_of_ascii c1) in
  let n2 := Z.of_nat (nat_of_ascii c2) in
  (n1 =? 194) && (n2 =? 160).

Definition is_white_space3 (c1 c2 c3 : ascii) : bool :=
  let n1 := Z.of_nat (nat_of_ascii c1) in
  let n2 := Z.of_nat (nat_of_ascii c2) in
  let n3 := Z.of_nat (nat_of_ascii c3) in
  ((n1 =? 225) && (n2 =? 154) && (n3 =? 128))
  || ((n1 =? 226) && (n2 =? 128)
      && (((128 <=? n3) && (n3 <=? 138))
          || (n3 =? 168) || (n3 =? 169) || (n3 =? 175)))
  || ((n1 =? 226) && (n2 =? 129) && (n3 =? 159))
  || ((n1 =? 227) && (n2 =? 128) && (n3 =? 128))
  || ((n1 =? 239) && (n2 =? 187) && (n3 =? 191)).

Fixpoint trim_start (s : string) : string :=
  match s with
  | String c1 r1 =>
      if is_white_space c1 then trim_start r1
      else if white_space_lead c1 then
        match r1 with
        | String c2 r2 =>
            if is_white_space2 c1 c2 then trim_start r2
            else
              match r2 with
              | String c3 r3 =>
                  if is_white_space3 c1 c2 c3 then trim_start r3 else s
              | EmptyString => s
              end
        | EmptyString => s
        end
      else s
  | EmptyString => s
  end.

Definition digit_value (c : ascii) : option Z :=
  let n := Z.of_nat (nat_of_ascii c) in
  if (48 <=? n) && (n <=? 57) then Some (n - 48)
  else if (97 <=? n) && (n <=? 122) then Some (n - 97 + 10)
  else if (65 <=? n) && (n <=? 90) then Some (n - 65 + 10)
  else None.

Definition radix_digit (R : Z) (c : ascii) : option Z :=
  match digit_value c with
  | Some d => if d <? R then Some d else None
  | None => None
  end.

(** The longest prefix of radix-[R] digits, read as an integer; [acc] is
    [None] as long as no digit was seen. *)
Fixpoint parse_digits (R : Z) (s : string) (acc : option Z) : option Z :=
  match s with
  | String c rest =>
      match radix_digit R c with
      | Some d =>
          parse_digits R rest
            (Some (match acc with Some a => a * R + d | None => d end))
      | None => acc
      end
  | EmptyString => acc
  end.

Definition strip_sign (s : string) : Z * string :=
  match s with
  | String "-" rest => (-1, rest)
  | String "+" rest => (1, rest)
  | _ => (1, s)
  end.

Definition strip_hex_prefix (s : string) : Z * string :=
  match s with
  | String "0" (String "x" rest) => (16, rest)
  | String "0" (String "X" rest) => (16, rest)
  | _ => (10, s)
  end.

(** The double nearest to a natural number [m], ties to even: numbers of
    at most 53 bits are doubles; of a longer one the 53 leading bits are
    kept and rounded on the bits that are dropped. *)
Definition round_to_double (m : Z) : Z :=
  let n := Z.log2 m + 1 in
  if n <=? 53 then m
  else
    let sh := n - 53 in
    let q := Z.shiftr m sh in
    let rest := m - Z.shiftl q sh in
    let half := Z.shiftl 1 (sh - 1) in
    let q' := if (half <? rest) || ((rest =? half) && Z.odd q)
              then q + 1 else q in
    Z.shiftl q' sh.

(** The Number for a mathematical integer: what rounds to 2^1024 or
    beyond is an infinity. *)
Definition of_integer (z : Z) : number :=
  let r := round_to_double (Z.abs z) in
  if Z.shiftl 1 1024 <=? r then Infinity (z <? 0) else Num (Z.sgn z * r).

Definition parseInt (s : string) : number :=
  let '(sign, s1) := strip_sign (trim_start s) in
  let '(R, s2) := strip_hex_prefix s1 in
  match parse_digits R s2 None with
  | Some m => of_integer (sign * m)
  | None => NaN
  end.

(** *** Number-to-string conversion, as a template literal performs it

    For a double of integer value [x] the digits are those of the
    shortest decimal [s * 10^e] that rounds to [x] (the nearest to [x] if
    there are several, the even [s] on a tie); they are written out in
    full up to 21 digits and in exponent form beyond.  Below 2^53 every
    integer is its own shortest decimal. *)

Definition decimal_length (v : Z) : Z :=
  Z.of_nat (String.length (pretty v)).

(** Among the decimals with [k], [k+1], ... significant digits, the first
    that rounds to [x]; [D] is the number of digits of [x]. *)
Fixpoint shortest_from (fuel : nat) (k D x : Z) : Z :=
  match fuel with
  | O => x
  | S fuel' =>
      let p := 10 ^ (D - k) in
      let s0 := x / p in
      let v0 := s0 * p in
      let v1 := (s0 + 1) * p in
      let ok0 := round_to_double v0 =? x in
      let ok1 := round_to_double v1 =? x in
      if ok0 && ok1 then
        if x - v0 <? v1 - x then v0
        else if v1 - x <? x - v0 then v1
        else if Z.even s0 then v0 else v1
      else if ok0 then v0
      else if ok1 then v1
      else if D <=? k then x
      else shortest_from fuel' (k + 1) D x
  end.

Definition shortest_decimal (x : Z) : Z :=
  shortest_from 17 1 (decimal_length x) x.

Fixpoint strip_trailing_zeros (s : string) : string :=
  match s with
  | String c rest =>
      match strip_trailing_zeros rest with
      | EmptyString => if Ascii.eqb c "0" then EmptyString else String c EmptyString
      | rest' => String c rest'
      end
  | EmptyString => EmptyString
  end.

(** [d.ddde+n] for a positive integer of more than 21 digits. *)
Definition exponent_form (v : Z) : string :=
  match strip_trailing_zeros (pretty v) with
  | String d EmptyString =>
      String d ("e+" +:+ pretty (decimal_length v - 1))
  | String d ds =>
      String d ("." +:+ ds +:+ "e+" +:+ pretty (decimal_length v - 1))
  | EmptyString => "0"
  end.

Definition natural_to_string (x : Z) : string :=
  if x <? Z.shiftl 1 53 then pretty x
  else
    let v := shortest_decimal x in
    if decimal_length v <=? 21 then pretty v else exponent_form v.

Definition number_to_string (n : number) : string :=
  match n with
  | NaN => "NaN"
  | Infinity false => "Infinity"
  | Infinity true => "-Infinity"
  | Num z => if z <? 0 then "-" +:+ natural_to_string (- z)
             else natural_to_string z
  end.

End Js.

(* ===================================================================== *)
(** ** The zod fragment of the input schema *)
(* ===================================================================== *)

Module Zod.
Import Js.

(** [z.string()] and [.describe(text)]; the latter only attaches
    documentation. *)
Inductive type :=
| ZString
| ZDescribe (inner : type) (description : string).

(** A raw shape, the object literal handed to [server.tool]. *)
Definition shape := list (string * type).

(** [schema.safeParse(v)]: the parsed value, or [None] for a validation
    error. *)
Fixpoint parse (t : type) (v : value) : option value :=
  match t with
  | ZString =>
      match v with
      | VString s => Some (VString s)
      | _ => None
      end
  | ZDescribe inner _ => parse inner v
  end.

(** [z.object(shape).safeParse(args)]: every key of the shape is parsed
    from the same-named property of [args] (a missing property reads as
    [undefined]); keys outside the shape are dropped. *)
Fixpoint parse_props (sh : shape) (args : value)
  : option (list (string * value)) :=
  match sh with
  | [] => Some []
  | (k, t) :: rest =>
      match parse t (get args k) with
      | Some v =>
          match parse_props rest args with
          | Some vs => Some ((k, v) :: vs)
          | None => None
          end
      | None => None
      end
  end.

Definition parse_object (sh : shape) (args : value) : option value :=
  match args with
  | VObject _ =>
      match parse_props sh args with
      | Some vs => Some (VObject vs)
      | None => None
      end
  | _ => None
  end.

End Zod.

(* ===================================================================== *)
(** ** Configuration from environment variables *)
(* ===================================================================== *)

Module Config.
Import Js.

(** [process.env]: a map from variable names to strings. *)
Abbreviation env := (gmap string string).

Record t := {
  apiKey : option string;
  maxRetries : number;
  timeout : number;
  searchContextSize : string;
  reasoningEffort : string;
  processTimeout : number;
}.

(** The [config] object literal at the top of the module. *)
Definition load (e : env) : t := {|
  apiKey := e !! "OPENAI_API_KEY";
  maxRetries := parseInt (or (e !! "OPENAI_MAX_RETRIES") "3");
  timeout := parseInt (or (e !! "OPENAI_API_TIMEOUT") "60000");
  searchContextSize := or (e !! "SEARCH_CONTEXT_SIZE") "medium";
  reasoningEffort := or (e !! "REASONING_EFFORT") "medium";
  processTimeout := parseInt (or (e !! "PROCESS_TIMEOUT") "300000");
|}.

End Config.

(* ===================================================================== *)
(** ** Process state and the monad of effectful code *)
(* ===================================================================== *)

Module Runtime.
Import Js.

(** The request object of [openai.responses.create]. *)
Record Tool := {
  tool_type : string;
  search_context_size : string;
}.

Record Reasoning := { effort : string }.

Record ResponseCreateParams := {
  model : string;
  input : string;
  tools : list Tool;
  tool_choice : string;
  parallel_tool_calls : bool;
  reasoning : Reasoning;
}.

(** The upstream reply, reduced to the one property the program reads.
    [output_text] is declared [string]; [None] stands for a reply in which
    the property is missing ([undefined]). *)
Record Response := { output_text : option string }.

(** The value returned by the tool callback. *)
Record TextContent := {
  type : string;
  text : string;
}.

Record CallToolResult := { content : list TextContent }.

(** How an awaited promise settles. *)
Inductive settled (A : Type) :=
| Fulfilled (a : A)
| Rejected (reason : value).
Arguments Fulfilled {A} a.
Arguments Rejected {A} reason.

(** What the process does to the outside world, in the order it does it. *)
Inductive effect :=
| Stdout (line : string)               (* console.log *)
| Stderr (args : list value)           (* console.error *)
| UpstreamCall (params : ResponseCreateParams)
| SetTimeout (delay : number)
| ClearTimeout
| TransportClose
| ProcessExit (code : Z).

(** The one-shot timer behind [timeoutHandle]. *)
Inductive timer :=
| TimerNone       (* setTimeout not yet called *)
| TimerArmed
| TimerFired      (* the callback has been run *)
| TimerCleared.   (* clearTimeout(timeoutHandle) has been called *)

Record process := {
  env : Config.env;            (* process.env, which may change over time *)
  config : Config.t;           (* the module-level constant [config] *)
  timeoutHandle : timer;
  listening : bool;            (* the listeners of main() are installed *)
  shutdowns : list string;     (* calls of [shutdown] that reached
                                  [await transport.close()], oldest first,
                                  by their [signal] argument *)
  effects : list effect;       (* oldest first *)
  exit_code : option Z;        (* [Some c] once process.exit(c) has run *)
}.

Definition emit (e : effect) (p : process) : process := {|
  env := env p; config := config p; timeoutHandle := timeoutHandle p;
  listening := listening p; shutdowns := shutdowns p;
  effects := effects p ++ [e]; exit_code := exit_code p;
|}.

Definition set_timer (t : timer) (p : process) : process := {|
  env := env p; config := config p; timeoutHandle := t;
  listening := listening p; shutdowns := shutdowns p;
  effects := effects p; exit_code := exit_code p;
|}.

Definition set_listening (p : process) : process := {|
  env := env p; config := config p; timeoutHandle := timeoutHandle p;
  listening := true; shutdowns := shutdowns p;
  effects := effects p; exit_code := exit_code p;
|}.

Definition push_shutdown (signal : string) (p : process) : process := {|
  env := env p; config := config p; timeoutHandle := timeoutHandle p;
  listening := listening p; shutdowns := shutdowns p ++ [signal];
  effects := effects p; exit_code := exit_code p;
|}.

Definition set_exit_code (c : Z) (p : process) : process := {|
  env := env p; config := config p; timeoutHandle := timeoutHandle p;
  listening := listening p; shutdowns := shutdowns p;
  effects := effects p; exit_code := Some c;
|}.

(** [process.env[k] = v], by anyone, at any time after start-up. *)
Definition setenv (k v : string) (p : process) : process := {|
  env := <[k := v]> (env p); config := config p;
  timeoutHandle := timeoutHandle p;
  listening := listening p; shutdowns := shutdowns p;
  effects := effects p; exit_code := exit_code p;
|}.

(** The state in which the module body starts to run: [config] is
    evaluated from the environment of that moment. *)
Definition initial (e : Config.env) : process := {|
  env := e; config := Config.load e; timeoutHandle := TimerNone;
  listening := false; shutdowns := []; effects := []; exit_code := None;
|}.

(** The upstream requests a process has issued so far, oldest first. *)
Definition upstream_calls (p : process) : list ResponseCreateParams :=
  omap (fun e => match e with UpstreamCall r => Some r | _ => None end)
       (effects p).

(** How a piece of code completes: normally with a value, abruptly by a
    thrown value (a rejected promise for an async function), or not at all
    because [process.exit] ended the process. *)
Inductive completion (A : Type) :=
| Normal (a : A)
| Throw (e : value)
| Exit (code : Z).
Arguments Normal {A} a.
Arguments Throw {A} e.
Arguments Exit {A} code.

Definition M (A : Type) : Type := process -> completion A * process.

Definition ret {A} (a : A) : M A := fun p => (Normal a, p).

Definition bind {A B} (k : A -> M B) (m : M A) : M B :=
  fun p =>
    match m p with
    | (Normal a, p') => k a p'
    | (Throw e, p') => (Throw e, p')
    | (Exit c, p') => (Exit c, p')
    end.

#[global] Instance M_ret : MRet M := @ret.
#[global] Instance M_bind : MBind M := @bind.

(** [try { body } catch (error) { handler }] *)
Definition try_catch {A} (body : M A) (handler : value -> M A) : M A :=
  fun p =>
    match body p with
    | (Throw e, p') => handler e p'
    | r => r
    end.

(** [await promise] for a promise that settles as [s]. *)
Definition await {A} (s : settled A) : M A :=
  fun p =>
    match s with
    | Fulfilled a => (Normal a, p)
    | Rejected e => (Throw e, p)
    end.

Definition perform (e : effect) : M unit := fun p => (Normal tt, emit e p).

Definition console_log (line : string) : M unit := perform (Stdout line).

Definition console_error (args : list value) : M unit :=
  perform (Stderr args).

Definition get_config : M Config.t := fun p => (Normal (config p), p).

(** [process.exit(code)] does not return. *)
Definition process_exit {A} (code : Z) : M A :=
  fun p => (Exit code, set_exit_code code (emit (ProcessExit code) p)).

End Runtime.

(* ===================================================================== *)
(** ** The o3-search tool *)
(* ===================================================================== *)

Module Handler.
Import Js Runtime.

Section WithUpstream.

(** [openai.responses.create], the external client: for each request, how
    the promise it returns settles.  A synchronous throw of the call is a
    rejection as far as the enclosing [try] is concerned. *)
Variable create : ResponseCreateParams -> settled Response.

Definition responses_create (params : ResponseCreateParams) : M Response :=
  perform (UpstreamCall params) ;; await (create params).

(** The object literal passed to [openai.responses.create]. *)
Definition request (cfg : Config.t) (input : string)
  : ResponseCreateParams := {|
  model := "o3";
  input := input;
  tools := [ {| tool_type := "web_search_preview";
                search_context_size := Config.searchContextSize cfg |} ];
  tool_choice := "auto";
  parallel_tool_calls := true;
  reasoning := {| effort := Config.reasoningEffort cfg |};
|}.

Definition text_result (body : string) : CallToolResult :=
  {| content := [ {| type := "text"; text := body |} ] |}.

(** The async callback [async ({ input }) => { try ... catch ... }]. *)
Definition handler (input : string) : M CallToolResult :=
  try_catch
    (cfg ← get_config;
     response ← responses_create (request cfg input);
     mret (text_result
             (or (output_text response) "No response text available.")))
    (fun error =>
       console_error [VString "Error calling OpenAI API:"; error] ;;
       mret (text_result
               ("Error: " +:+
                (if instanceof_Error error
                 then message error
                 else "Unknown error occurred")))).

(** The options of [new OpenAI({ ... })], the client behind [create]:
    retries and the per-call time limit are its business. *)
Record ClientOptions := {
  apiKey : option string;
  maxRetries : number;
  timeout : number;
}.

Definition openai (cfg : Config.t) : ClientOptions := {|
  apiKey := Config.apiKey cfg;
  maxRetries := Config.maxRetries cfg;
  timeout := Config.timeout cfg;
|}.

(** The registration [server.tool(name, description, shape, callback)]. *)
Record RegisteredTool := {
  name : string;
  description : string;
  paramsSchema : Zod.shape;
  callback : value -> M CallToolResult;
}.

(** The callback's parameter pattern [{ input }]: the [input] property of
    the validated arguments, which the schema has made a string. *)
Definition input_of (args : value) : string :=
  match get args "input" with
  | VString s => s
  | _ => ""
  end.

Definition o3_search : RegisteredTool := {|
  name := "o3-search";
  description :=
    "An AI agent with advanced web search capabilities. Useful for finding the latest information, troubleshooting errors, and discussing ideas or design challenges. Supports natural language queries.";
  paramsSchema :=
    [ ("input",
       Zod.ZDescribe Zod.ZString
         "Ask questions, search for information, or consult about complex problems in English.") ];
  callback := fun args => handler (input_of args);
|}.

(** What the MCP server does with a [tools/call] request for a registered
    tool: the arguments are validated against the shape, invalid arguments
    are answered with a protocol error without calling the callback, valid
    ones are handed to the callback. *)
Inductive call_outcome :=
| InvalidParams
| Result (r : CallToolResult).

Definition call_tool (tool : RegisteredTool) (args : value)
  : M call_outcome :=
  match Zod.parse_object (paramsSchema tool) args with
  | None => ret InvalidParams
  | Some parsed => r ← callback tool parsed; mret (Result r)
  end.

End WithUpstream.

End Handler.

(* ===================================================================== *)
(** ** main(), shutdown and the listeners *)
(* ===================================================================== *)

Module Lifecycle.
Import Js Runtime.

Inductive signal_kind := SIGTERM | SIGINT.

(** What the event loop can deliver to the code installed by [main()].
    [CloseSettled k s]: the promise of the [k]-th call of
    [transport.close()] settles as [s], which resumes the call of
    [shutdown] suspended on it. *)
Inductive event :=
| TimerElapsed
| Signal (s : signal_kind)
| StdinEnd
| StdinError (error : value)
| UncaughtException (error : value)
| UnhandledRejection (reason : value)
| CloseSettled (k : nat) (outcome : settled unit).

Definition setTimeout (delay : number) : M unit :=
  fun p => (Normal tt, set_timer TimerArmed (emit (SetTimeout delay) p)).

Definition clearTimeout : M unit :=
  fun p => (Normal tt, set_timer TimerCleared (emit ClearTimeout p)).

(** [transport.close()] is called and the caller suspends on the promise. *)
Definition transport_close (signal : string) : M unit :=
  fun p => (Normal tt, push_shutdown signal (emit TransportClose p)).

(** [shutdown(signal)] up to its suspension at [await transport.close()]. *)
Definition shutdown (signal : string) : M unit :=
  console_log ("Received " +:+ signal +:+ ", shutting down gracefully...") ;;
  clearTimeout ;;
  transport_close signal.

(** [shutdown(signal)] from the moment the awaited promise settles: the
    rest of the [try] block and the [catch] block.  (A synchronous throw
    of [transport.close()] lands in the same [catch] and is a rejection
    here.) *)
Definition shutdown_resume (signal : string) (outcome : settled unit)
  : M unit :=
  try_catch
    (await outcome ;; process_exit 0)
    (fun error =>
       console_error [VString "Error during shutdown:"; error] ;;
       process_exit 1).

(** The callbacks registered by [main()]. *)
Definition on_timeout : M unit :=
  cfg ← get_config;
  console_log ("Process timeout after "
               +:+ number_to_string (Config.processTimeout cfg)
               +:+ "ms, shutting down...") ;;
  shutdown "timeout".

Definition on_SIGTERM : M unit := shutdown "SIGTERM".

Definition on_SIGINT : M unit := shutdown "SIGINT".

Definition on_stdin_end : M unit :=
  console_log "Client disconnected, shutting down..." ;;
  shutdown "stdin end".

Definition on_stdin_error (error : value) : M unit :=
  console_error [VString "Stdin error:"; error] ;;
  shutdown "stdin error".

Definition on_uncaughtException (error : value) : M unit :=
  console_error [VString "Uncaught exception:"; error] ;;
  shutdown "uncaught exception".

(** The rejected promise itself is logged too; it is shown as an object. *)
Definition on_unhandledRejection (reason : value) : M unit :=
  console_error [VString "Unhandled rejection at:"; VObject [];
                 VString "reason:"; reason] ;;
  shutdown "unhandled rejection".

Definition install_listeners : M unit :=
  fun p => (Normal tt, set_listening p).

(** [async function main()]; [connect] is how [server.connect(transport)]
    settles (a throwing transport constructor rejects [main()] likewise). *)
Definition main (connect : settled unit) : M unit :=
  await connect ;;
  console_log "MCP Server running on stdio" ;;
  cfg ← get_config;
  setTimeout (Config.processTimeout cfg) ;;
  install_listeners.

(** [main().catch((error) => { ... process.exit(1) })] *)
Definition main_catch (connect : settled unit) : M unit :=
  try_catch
    (main connect)
    (fun error =>
       console_error [VString "Fatal error in main():"; error] ;;
       process_exit 1).

(** Running a piece of code to its next suspension or to its end. *)
Definition exec {A} (m : M A) (p : process) : process := snd (m p).

(** The module body, from the evaluation of [config] to the end of
    [main()]. *)
Definition boot (e : Config.env) (connect : settled unit) : process :=
  exec (main_catch connect) (initial e).

(** One turn of the event loop.  A process that has exited takes no
    further turn; events that arrive before the listeners are installed
    are not handled by this program and are left out. *)
Definition step (ev : event) (p : process) : process :=
  match exit_code p with
  | Some _ => p
  | None =>
      if negb (listening p) then p
      else
        match ev with
        | TimerElapsed =>
            match timeoutHandle p with
            | TimerArmed => exec on_timeout (set_timer TimerFired p)
            | _ => p
            end
        | Signal SIGTERM => exec on_SIGTERM p
        | Signal SIGINT => exec on_SIGINT p
        | StdinEnd => exec on_stdin_end p
        | StdinError error => exec (on_stdin_error error) p
        | UncaughtException error => exec (on_uncaughtException error) p
        | UnhandledRejection reason => exec (on_unhandledRejection reason) p
        | CloseSettled k outcome =>
            match shutdowns p !! k with
            | Some signal => exec (shutdown_resume signal outcome) p
            | None => p
            end
        end
  end.

Fixpoint run (evs : list event) (p : process) : process :=
  match evs with
  | [] => p
  | ev :: rest => run rest (step ev p)
  end.

(** A case analysis on one turn of the loop: the process is left alone, or
    a listener has called [shutdown] after some logging of its own, or a
    suspended [shutdown] has been resumed. *)
Inductive turn (p : process) : process -> Prop :=
| turn_idle : turn p p
| turn_shutdown signal p0 :
    config p0 = config p ->
    listening p0 = listening p ->
    shutdowns p0 = shutdowns p ->
    exit_code p0 = exit_code p ->
    turn p (exec (shutdown signal) p0)
| turn_resume signal outcome :
    turn p (exec (shutdown_resume signal outcome) p).

(** *** Comparing two runs that differ in the reason of a shutdown *)

(** The line that [shutdown(signal)] logs. *)
Definition received_line (signal : string) : string :=
  "Received " +:+ signal +:+ ", shutting down gracefully...".

(** Two effects are the same, or both are that line for some reasons. *)
Definition same_but_reason (e1 e2 : effect) : Prop :=
  e1 = e2
  \/ exists r1 r2, e1 = Stdout (received_line r1)
                 /\ e2 = Stdout (received_line r2).

(** Two process states agree on everything but the reasons: the same
    configuration, timer, listeners and exit status, as many calls of
    [shutdown] suspended, and effect for effect the same trace up to the
    reason named in a "Received ..." line. *)
Record agree (p q : process) : Prop := {
  agree_config : config p = config q;
  agree_timer : timeoutHandle p = timeoutHandle q;
  agree_listening : listening p = listening q;
  agree_exit : exit_code p = exit_code q;
  agree_shutdowns : length (shutdowns p) = length (shutdowns q);
  agree_effects : Forall2 same_but_reason (effects p) (effects q);
}.

End Lifecycle.

(* ===================================================================== *)
(** ** Numerals in environment variables *)
(* ===================================================================== *)

Module Numerals.
Import Js.

(** What may follow a numeral without changing what [parseInt] reads:
    nothing, or text that starts with a character that is neither a
    decimal digit nor the [x] of a hexadecimal prefix. *)
Definition is_tail (r : string) : Prop :=
  match r with
  | EmptyString => True
  | String c _ => radix_digit 10 c = None /\ c <> "x"%char /\ c <> "X"%char
  end.

End Numerals.

(* ===================================================================== *)
(** ** The server as a whole: tool calls among the events of the loop *)
(* ===================================================================== *)

Module Server.
Import Js Runtime Handler Lifecycle.

(** What happens to the running process: the event loop delivers an event
    to the listeners of [main()], or the MCP server dispatches a
    [tools/call] request for [o3-search].  A tool call is taken as a whole,
    from the validation of its arguments to the result of the callback, as
    [Handler.call_tool] has it. *)
Inductive activity :=
| Loop (ev : event)
| ToolCall (args : value).

Section WithUpstream.

Variable create : ResponseCreateParams -> settled Response.

(** A process that has exited serves no call. *)
Definition act (a : activity) (p : process) : process :=
  match a with
  | Loop ev => step ev p
  | ToolCall args =>
      match exit_code p with
      | Some _ => p
      | None => exec (call_tool (o3_search create) args) p
      end
  end.

Fixpoint serve (acts : list activity) (p : process) : process :=
  match acts with
  | [] => p
  | a :: rest => serve rest (act a p)
  end.

End WithUpstream.

(** The events of the loop among some activities, in order. *)
Definition loop_events (acts : list activity) : list event :=
  omap (fun a => match a with Loop ev => Some ev | ToolCall _ => None end)
       acts.

(** Everything of a process but the trace of its effects. *)
Definition lifecycle_view (p : process)
  : Config.env * Config.t * timer * bool * list string * option Z :=
  (env p, config p, timeoutHandle p, listening p, shutdowns p, exit_code p).

(** The reason with which the listener of an event calls [shutdown], for
    the events whose listener calls it unconditionally: the two signals,
    the two stdin events and the two process-level faults. *)
Definition trigger_reason (ev : event) : option string :=
  match ev with
  | Signal SIGTERM => Some "SIGTERM"
  | Signal SIGINT => Some "SIGINT"
  | StdinEnd => Some "stdin end"
  | StdinError _ => Some "stdin error"
  | UncaughtException _ => Some "uncaught exception"
  | UnhandledRejection _ => Some "unhandled rejection"
  | TimerElapsed => None
  | CloseSettled _ _ => None
  end.

(** How often [transport.close()] has been called. *)
Definition close_calls (p : process) : nat :=
  length (omap (fun e => match e with TransportClose => Some tt | _ => None end)
               (effects p)).

(** The exit statuses [process.exit] has been called with, in order. *)
Definition exits (p : process) : list Z :=
  omap (fun e => match e with ProcessExit c => Some c | _ => None end)
       (effects p).

(** What holds of every state a process can reach from its start. *)
Record sound (q : process) : Prop := {
  sound_closes : close_calls q = length (shutdowns q);
  sound_listening : shutdowns q <> [] -> listening q = true;
  sound_armed : timeoutHandle q = TimerArmed -> shutdowns q = [];
  sound_timeout : forall k, shutdowns q !! k = Some "timeout" -> k = 0%nat;
  sound_alive : exit_code q = None -> exits q = [];
  sound_exited :
    forall c, exit_code q = Some c ->
      exits q = [c]
      /\ last (effects q) = Some (ProcessExit c)
      /\ (c = 1 \/ (c = 0 /\ shutdowns q <> []));
}.







End Server.

(* ===================================================================== *)
(** ** Properties of the o3-search tool *)
(* ===================================================================== *)

Module HandlerFacts.
Import Js Runtime Handler.

Lemma upstream_calls_emit e p :
  upstream_calls (emit e p)
  = (upstream_calls p
     ++ match e with UpstreamCall r => [r] | _ => [] end)%list.
Proof.
  unfold upstream_calls, emit; simpl.
  rewrite omap_app. destruct e; reflexivity.
Qed.

Section WithUpstream.

Variable create : ResponseCreateParams -> settled Response.

(** The two ways through the callback, one per way the awaited upstream
    promise settles. *)
Lemma handler_fulfilled input p r :
  create (request (config p) input) = Fulfilled r ->
  handler create input p
  = (Normal (text_result (or (output_text r) "No response text available.")),
     emit (UpstreamCall (request (config p) input)) p).
Proof.
  intros Hc. unfold handler, try_catch, responses_create, get_config, perform.
  unfold mbind, M_bind, bind, mret, M_ret, ret, await; simpl.
  rewrite Hc. reflexivity.
Qed.

Lemma handler_rejected input p V :
  create (request (config p) input) = Rejected V ->
  handler create input p
  = (Normal (text_result
               ("Error: " +:+ (if instanceof_Error V then message V
                               else "Unknown error occurred"))),
     emit (Stderr [VString "Error calling OpenAI API:"; V])
          (emit (UpstreamCall (request (config p) input)) p)).
Proof.
  intros Hc. unfold handler, try_catch, responses_create, get_config, perform.
  unfold mbind, M_bind, bind, mret, M_ret, ret, await, console_error, perform;
    simpl.
  rewrite Hc. reflexivity.
Qed.

Lemma or_nonempty o d : d <> "" -> or o d <> "".
Proof.
  intros Hd. destruct o as [s|]; simpl; [|exact Hd].
  destruct s; simpl; [exact Hd | discriminate].
Qed.

Lemma or_truthy s d : s <> "" -> or (Some s) d = s.
Proof. destruct s; simpl; [congruence | reflexivity]. Qed.


(** Either way the callback completes normally with a text result. *)
Lemma handler_text_shape input p :
  exists body,
    fst (handler create input p) = Normal (text_result body) /\ body <> "".
Proof.
  destruct (create (request (config p) input)) as [r | V] eqn:Hc.
  - rewrite (handler_fulfilled input p r Hc). cbn [fst].
    eexists; split; [reflexivity |]. apply or_nonempty; discriminate.
  - rewrite (handler_rejected input p V Hc). cbn [fst].
    eexists; split; [reflexivity | discriminate].
Qed.

(** Either way exactly one request has gone upstream. *)
Lemma handler_upstream_calls input p :
  upstream_calls (snd (handler create input p))
  = (upstream_calls p ++ [request (config p) input])%list.
Proof.
  destruct (create (request (config p) input)) as [r | V] eqn:Hc.
  - rewrite (handler_fulfilled input p r Hc); cbn [snd].
    rewrite upstream_calls_emit. reflexivity.
  - rewrite (handler_rejected input p V Hc); cbn [snd].
    rewrite !upstream_calls_emit; simpl. rewrite app_nil_r. reflexivity.
Qed.

Lemma handler_exit_code input p :
  exit_code (snd (handler create input p)) = exit_code p.
Proof.
  destruct (create (request (config p) input)) as [r | V] eqn:Hc.
  - rewrite (handler_fulfilled input p r Hc). reflexivity.
  - rewrite (handler_rejected input p V Hc). reflexivity.
Qed.

End WithUpstream.

End HandlerFacts.

Example parseInt_default_timeout : Js.parseInt "60000" = Js.Num 60000.
Proof. reflexivity. Qed.

Example parseInt_hex : Js.parseInt "  -0x1F rest" = Js.Num (-31).
Proof. reflexivity. Qed.

Example parseInt_garbage : Js.parseInt "abc" = Js.NaN.
Proof. reflexivity. Qed.

Example parseInt_trailing : Js.parseInt "12px" = Js.Num 12.
Proof. reflexivity. Qed.

(** Beyond 2^53 the integer read is rounded to the nearest double. *)
Example parseInt_rounds :
  Js.parseInt "9007199254740993" = Js.Num 9007199254740992
  /\ Js.parseInt "9007199254740995" = Js.Num 9007199254740996.
Proof. split; vm_compute; reflexivity. Qed.

(** U+00A0 and U+FEFF are white space; U+2014 (a dash) is not. *)
Example parseInt_skips_unicode_white_space :
  Js.parseInt (String (ascii_of_nat 194) (String (ascii_of_nat 160) "5000"))
  = Js.Num 5000
  /\ Js.parseInt (String (ascii_of_nat 239) (String (ascii_of_nat 187)
                    (String (ascii_of_nat 191) " 42")))
     = Js.Num 42
  /\ Js.parseInt (String (ascii_of_nat 226) (String (ascii_of_nat 128)
                    (String (ascii_of_nat 148) "42")))
     = Js.NaN.
Proof. repeat split; vm_compute; reflexivity. Qed.

(** The largest double, and the first numeral that is read as infinity. *)
Example parseInt_overflows :
  Js.of_integer (2 ^ 1024 - 2 ^ 970 - 1) = Js.Num (2 ^ 1024 - 2 ^ 971)
  /\ Js.of_integer (2 ^ 1024 - 2 ^ 970) = Js.Infinity false.
Proof. split; vm_compute; reflexivity. Qed.

(** Doubles are printed with their shortest digits, in full up to 21
    digits and in exponent form beyond. *)
Example number_to_string_large :
  Js.number_to_string (Js.Num (2 ^ 60)) = "1152921504606847000"
  /\ Js.number_to_string (Js.Num (2 ^ 64)) = "18446744073709552000"
  /\ Js.number_to_string (Js.Num (10 ^ 21)) = "1e+21"
  /\ Js.number_to_string (Js.Num (2 ^ 70)) = "1.1805916207174113e+21"
  /\ Js.number_to_string (Js.Num (2 ^ 1024 - 2 ^ 971))
     = "1.7976931348623157e+308"
  /\ Js.number_to_string (Js.Num (- 2 ^ 53)) = "-9007199254740992".
Proof. repeat split; vm_compute; reflexivity. Qed.

Example number_to_string_300000 :
  Js.number_to_string (Js.Num 300000) = "300000".
Proof. vm_compute. reflexivity. Qed.

(* ===================================================================== *)
(** ** The claims about the o3-search tool *)
(* ===================================================================== *)

Import Js Runtime Handler HandlerFacts.

(** Scenario A of the specification. *)
Example scenario_A :
  fst (handler (fun _ => Fulfilled {| output_text := Some "Paris." |})
         "What is the capital of France?" (initial ∅))
  = Normal (text_result "Paris.").
Proof. reflexivity. Qed.

(** Scenario B of the specification, the rejection being an [Error]. *)
Example scenario_B :
  fst (handler (fun _ => Rejected (VError "Error" "rate limit exceeded"))
         "anything" (initial ∅))
  = Normal (text_result "Error: rate limit exceeded").
Proof. reflexivity. Qed.

(** A rejection with a bare string, or with a plain object that happens to
    carry a [message] property, is not an [Error]: the generic text is
    used. *)
Example rejected_with_a_string :
  fst (handler (fun _ => Rejected (VString "rate limit exceeded"))
         "anything" (initial ∅))
  = Normal (text_result "Error: Unknown error occurred").
Proof. reflexivity. Qed.

Example rejected_with_a_plain_object :
  fst (handler
         (fun _ => Rejected (VObject [("message", VString "boom")]))
         "anything" (initial ∅))
  = Normal (text_result "Error: Unknown error occurred").
Proof. reflexivity. Qed.

(** C1: whatever the input, the process state and the way the awaited
    upstream call settles, the callback completes normally (it neither
    throws nor ends the process) with one result whose content is a single
    item of type "text" with a non-empty text; the exit status of the
    process is left as it was. *)
Theorem handler_returns_one_nonempty_text
  (create : ResponseCreateParams -> settled Response)
  (input : string) (p : process) :
  exists body : string,
    fst (handler create input p)
    = Normal {| content := [ {| type := "text"; text := body |} ] |}
    /\ body <> ""
    /\ exit_code (snd (handler create input p)) = exit_code p.
Proof.
  destruct (handler_text_shape create input p) as (body & Hb & Hne).
  exists body. split; [exact Hb | split; [exact Hne |]].
  apply handler_exit_code.
Qed.








(** C7: one run of the callback adds exactly one request to the upstream
    calls of the process, whether that call resolves or rejects, and the
    request carries the model "o3", the input, one web-search tool with the
    configured context size, tool choice "auto", parallel tool calls
    enabled and the configured reasoning effort. *)
Theorem handler_issues_one_upstream_call
  (create : ResponseCreateParams -> settled Response)
  (input : string) (p : process) :
  upstream_calls (snd (handler create input p))
  = (upstream_calls p
     ++ [ {| model := "o3";
             input := input;
             tools := [ {| tool_type := "web_search_preview";
                           search_context_size :=
                             Config.searchContextSize (config p) |} ];
             tool_choice := "auto";
             parallel_tool_calls := true;
             reasoning :=
               {| effort := Config.reasoningEffort (config p) |} |} ])%list.
Proof. apply (handler_upstream_calls create input p). Qed.

(** C10: the schema of the tool asks for nothing but a string under
    [input]; the empty string passes it, the callback runs on it, the
    upstream request carries it, and the result is the same well-formed
    text result that any other input with the same upstream outcome
    gets. *)
Theorem empty_input_is_served
  (create : ResponseCreateParams -> settled Response) (p : process) :
  (forall args,
      Zod.parse_object (paramsSchema (o3_search create)) args
      = match args with
        | VObject props =>
            match get_prop "input" props with
            | VString s => Some (VObject [("input", VString s)])
            | _ => None
            end
        | _ => None
        end)
  /\ call_tool (o3_search create) (VObject [("input", VString "")]) p
     = (r ← handler create ""; mret (Result r)) p
  /\ upstream_calls
       (snd (call_tool (o3_search create) (VObject [("input", VString "")]) p))
     = (upstream_calls p ++ [request (config p) ""])%list
  /\ input (request (config p) "") = ""
  /\ (exists body,
         fst (call_tool (o3_search create)
                (VObject [("input", VString "")]) p)
         = Normal (Result {| content := [ {| type := "text";
                                             text := body |} ] |})
         /\ body <> "")
  /\ (forall s,
         create (request (config p) s) = create (request (config p) "") ->
         fst (handler create s p) = fst (handler create "" p)).
Proof.
  assert (Hcall :
    call_tool (o3_search create) (VObject [("input", VString "")]) p
    = (r ← handler create ""; mret (Result r)) p) by reflexivity.
  split; [| split; [exact Hcall | split; [| split; [reflexivity | split]]]].
  - intros [ | | | | | props | ]; try reflexivity.
    unfold Zod.parse_object; simpl.
    destruct (get_prop "input" props); reflexivity.
  - rewrite Hcall. unfold mbind, M_bind, bind.
    pose proof (handler_upstream_calls create "" p) as Hone.
    destruct (handler create "" p) as [[r | e | c] p']; exact Hone.
  - destruct (handler_text_shape create "" p) as (body & Hb & Hne).
    exists body. split; [| exact Hne].
    rewrite Hcall. unfold mbind, M_bind, bind.
    destruct (handler create "" p) as [c p']; simpl in Hb. subst c.
    reflexivity.
  - intros s Hs.
    destruct (create (request (config p) "")) as [r | V] eqn:Hc.
    + rewrite (handler_fulfilled create s p r Hs).
      rewrite (handler_fulfilled create "" p r Hc). reflexivity.
    + rewrite (handler_rejected create s p V Hs).
      rewrite (handler_rejected create "" p V Hc). reflexivity.
Qed.

Lemma empty_input_is_served_witness :
  let create := fun _ : ResponseCreateParams =>
                  Fulfilled {| output_text := Some "ok" |} in
  fst (handler create "hello" (initial ∅))
  = fst (handler create "" (initial ∅)).
Proof.
  intros create.
  apply (proj2 (proj2 (proj2 (proj2 (proj2
           (empty_input_is_served create (initial ∅)))))) "hello").
  reflexivity.
Defined.

(* ===================================================================== *)
(** ** Properties of the lifecycle *)
(* ===================================================================== *)

Module LifecycleFacts.
Import Js Runtime Lifecycle.

(** [shutdown] up to its suspension, effect by effect. *)
Lemma shutdown_exec signal p :
  exec (shutdown signal) p
  = push_shutdown signal
      (set_timer TimerCleared
         (emit TransportClose
            (emit ClearTimeout (emit (Stdout (received_line signal)) p)))).
Proof. reflexivity. Qed.

(** The rest of [shutdown] once the close has settled; the [signal]
    argument plays no part in it. *)
Lemma shutdown_resume_exec signal outcome p :
  exec (shutdown_resume signal outcome) p
  = match outcome with
    | Fulfilled _ => set_exit_code 0 (emit (ProcessExit 0) p)
    | Rejected error =>
        set_exit_code 1
          (emit (ProcessExit 1)
             (emit (Stderr [VString "Error during shutdown:"; error]) p))
    end.
Proof. destruct outcome; reflexivity. Qed.

(** One turn of the loop of a live process whose listeners are installed,
    listener by listener. *)
Lemma step_running ev p :
  exit_code p = None ->
  listening p = true ->
  step ev p
  = match ev with
    | TimerElapsed =>
        match timeoutHandle p with
        | TimerArmed =>
            exec (shutdown "timeout")
              (emit (Stdout ("Process timeout after "
                             +:+ number_to_string
                                   (Config.processTimeout (config p))
                             +:+ "ms, shutting down..."))
                 (set_timer TimerFired p))
        | _ => p
        end
    | Signal SIGTERM => exec (shutdown "SIGTERM") p
    | Signal SIGINT => exec (shutdown "SIGINT") p
    | StdinEnd =>
        exec (shutdown "stdin end")
          (emit (Stdout "Client disconnected, shutting down...") p)
    | StdinError error =>
        exec (shutdown "stdin error")
          (emit (Stderr [VString "Stdin error:"; error]) p)
    | UncaughtException error =>
        exec (shutdown "uncaught exception")
          (emit (Stderr [VString "Uncaught exception:"; error]) p)
    | UnhandledRejection reason =>
        exec (shutdown "unhandled rejection")
          (emit (Stderr [VString "Unhandled rejection at:"; VObject [];
                         VString "reason:"; reason]) p)
    | CloseSettled k outcome =>
        match shutdowns p !! k with
        | Some signal => exec (shutdown_resume signal outcome) p
        | None => p
        end
    end.
Proof.
  intros Hx Hl. unfold step. rewrite Hx, Hl. cbn [negb].
  destruct ev as [ | [ | ] | | | | | ]; reflexivity.
Qed.

Lemma step_exited ev p c : exit_code p = Some c -> step ev p = p.
Proof. intros H. unfold step. rewrite H. reflexivity. Qed.

Lemma step_not_listening ev p : listening p = false -> step ev p = p.
Proof.
  intros H. unfold step. rewrite H. destruct (exit_code p); reflexivity.
Qed.

Lemma run_exited evs p c : exit_code p = Some c -> run evs p = p.
Proof.
  induction evs as [| ev evs IH]; intros H; simpl; [reflexivity |].
  rewrite (step_exited ev p c H). apply IH, H.
Qed.

Lemma run_app evs1 evs2 p : run (evs1 ++ evs2) p = run evs2 (run evs1 p).
Proof.
  revert p. induction evs1 as [| ev evs1 IH]; intros p; simpl;
    [reflexivity | apply IH].
Qed.

Lemma step_turn ev p : turn p (step ev p).
Proof.
  destruct (exit_code p) as [c |] eqn:Hx.
  { rewrite (step_exited ev p c Hx). constructor. }
  destruct (listening p) eqn:Hl.
  2: { rewrite (step_not_listening ev p Hl). constructor. }
  rewrite (step_running ev p Hx Hl).
  destruct ev as [ | [ | ] | | | | | k outcome ];
    try (apply turn_shutdown; reflexivity).
  - destruct (timeoutHandle p);
      first [apply turn_idle | apply turn_shutdown; reflexivity].
  - destruct (shutdowns p !! k); [apply turn_resume | apply turn_idle].
Qed.

Lemma step_config ev p : config (step ev p) = config p.
Proof.
  destruct (step_turn ev p) as [ | signal p0 Hc _ _ _ | signal outcome ].
  - reflexivity.
  - rewrite shutdown_exec. exact Hc.
  - rewrite shutdown_resume_exec. destruct outcome; reflexivity.
Qed.

Lemma run_config evs p : config (run evs p) = config p.
Proof.
  revert p. induction evs as [| ev evs IH]; intros p; simpl;
    [reflexivity |].
  rewrite IH. apply step_config.
Qed.

Lemma boot_config e connect : config (boot e connect) = Config.load e.
Proof. destruct connect; reflexivity. Qed.

(** Calls of [shutdown] are only ever added. *)
Lemma step_shutdowns ev p :
  shutdowns p <> [] -> shutdowns (step ev p) <> [].
Proof.
  intros H.
  destruct (step_turn ev p) as [ | signal p0 _ _ Hs _ | signal outcome ].
  - exact H.
  - rewrite shutdown_exec. cbn. rewrite Hs.
    intros Happ. apply app_eq_nil in Happ as [_ Happ]. discriminate.
  - rewrite shutdown_resume_exec. destruct outcome; exact H.
Qed.

(** Nothing after [main()] arms the timer. *)
Lemma step_timer ev p :
  timeoutHandle p <> TimerArmed -> timeoutHandle (step ev p) <> TimerArmed.
Proof.
  intros H.
  destruct (step_turn ev p) as [ | signal p0 _ _ _ _ | signal outcome ].
  - exact H.
  - rewrite shutdown_exec. discriminate.
  - rewrite shutdown_resume_exec. destruct outcome; exact H.
Qed.

(** The invariant of the lifecycle: [shutdown] is only ever called by an
    installed listener, and once it has been called the timer is not
    armed. *)
Lemma step_invariant ev p :
  (shutdowns p <> [] -> listening p = true /\ timeoutHandle p <> TimerArmed) ->
  shutdowns (step ev p) <> [] ->
  listening (step ev p) = true /\ timeoutHandle (step ev p) <> TimerArmed.
Proof.
  destruct (exit_code p) as [c |] eqn:Hx.
  { rewrite (step_exited ev p c Hx). exact (fun Inv => Inv). }
  assert (Hlisten : listening p = false \/ listening p = true)
    by (destruct (listening p); auto).
  destruct Hlisten as [Hl | Hl].
  { rewrite (step_not_listening ev p Hl). exact (fun Inv => Inv). }
  intros Inv.
  destruct (step_turn ev p) as [ | signal p0 _ Hl0 _ _ | signal outcome ].
  - exact Inv.
  - intros _. rewrite shutdown_exec. cbn. split; [congruence | discriminate].
  - rewrite shutdown_resume_exec.
    destruct outcome; cbn; intros Hs; destruct (Inv Hs) as [_ Ht];
      (split; [exact Hl | exact Ht]).
Qed.

Lemma boot_shutdowns e connect : shutdowns (boot e connect) = [].
Proof. destruct connect; reflexivity. Qed.

Lemma run_invariant evs p :
  (shutdowns p <> [] -> listening p = true /\ timeoutHandle p <> TimerArmed) ->
  shutdowns (run evs p) <> [] ->
  listening (run evs p) = true /\ timeoutHandle (run evs p) <> TimerArmed.
Proof.
  revert p. induction evs as [| ev evs IH]; intros p Inv; simpl;
    [exact Inv |].
  apply IH. apply step_invariant, Inv.
Qed.

Lemma reachable_invariant e connect evs :
  shutdowns (run evs (boot e connect)) <> [] ->
  listening (run evs (boot e connect)) = true
  /\ timeoutHandle (run evs (boot e connect)) <> TimerArmed.
Proof.
  apply run_invariant. rewrite boot_shutdowns. congruence.
Qed.

Lemma timer_elapsed_idle p :
  timeoutHandle p <> TimerArmed -> step TimerElapsed p = p.
Proof.
  intros H. unfold step.
  destruct (exit_code p); [reflexivity |].
  destruct (listening p); [| reflexivity]. cbn [negb].
  destruct (timeoutHandle p); congruence.
Qed.

End LifecycleFacts.

(* ===================================================================== *)
(** ** Runs that differ only in the reason of a shutdown *)
(* ===================================================================== *)

Module ReasonFacts.
Import Js Runtime Lifecycle LifecycleFacts.

Lemma same_but_reason_refl e : same_but_reason e e.
Proof. left. reflexivity. Qed.

Lemma same_but_reason_received r1 r2 :
  same_but_reason (Stdout (received_line r1)) (Stdout (received_line r2)).
Proof. right. exists r1, r2. split; reflexivity. Qed.

Create HintDb agree.
#[local] Hint Resolve same_but_reason_refl same_but_reason_received : agree.

Lemma agree_refl p : agree p p.
Proof.
  split; try reflexivity.
  induction (effects p); constructor; auto with agree.
Qed.

Lemma agree_emit e1 e2 p q :
  same_but_reason e1 e2 -> agree p q -> agree (emit e1 p) (emit e2 q).
Proof.
  intros He [Hc Ht Hl Hx Hs Hf]. split; cbn; try assumption.
  apply Forall2_app; [assumption | constructor; [assumption | constructor]].
Qed.

Lemma agree_set_timer t p q :
  agree p q -> agree (set_timer t p) (set_timer t q).
Proof. intros [Hc Ht Hl Hx Hs Hf]. split; cbn; try assumption. reflexivity. Qed.

Lemma agree_push_shutdown r1 r2 p q :
  agree p q -> agree (push_shutdown r1 p) (push_shutdown r2 q).
Proof.
  intros [Hc Ht Hl Hx Hs Hf]. split; cbn; try assumption.
  rewrite !length_app, Hs. reflexivity.
Qed.

Lemma agree_set_exit_code c p q :
  agree p q -> agree (set_exit_code c p) (set_exit_code c q).
Proof. intros [Hc Ht Hl Hx Hs Hf]. split; cbn; try assumption. reflexivity. Qed.

#[local] Hint Resolve agree_emit agree_set_timer agree_push_shutdown
  agree_set_exit_code : agree.

(** [shutdown] with two reasons, from states that agree. *)
Lemma agree_shutdown r1 r2 p q :
  agree p q -> agree (exec (shutdown r1) p) (exec (shutdown r2) q).
Proof.
  intros H. rewrite !shutdown_exec. auto 10 with agree.
Qed.

Lemma agree_resume r1 r2 outcome p q :
  agree p q ->
  agree (exec (shutdown_resume r1 outcome) p)
        (exec (shutdown_resume r2 outcome) q).
Proof.
  intros H. rewrite !shutdown_resume_exec.
  destruct outcome; auto 10 with agree.
Qed.

Lemma agree_lookup k p q :
  agree p q ->
  (exists r1 r2, shutdowns p !! k = Some r1 /\ shutdowns q !! k = Some r2)
  \/ (shutdowns p !! k = None /\ shutdowns q !! k = None).
Proof.
  intros H. pose proof (agree_shutdowns p q H) as Hlen.
  destruct (shutdowns p !! k) as [r1 |] eqn:Hp;
    destruct (shutdowns q !! k) as [r2 |] eqn:Hq.
  - left. eauto.
  - apply lookup_lt_Some in Hp. apply lookup_ge_None in Hq.
    rewrite Hlen in Hp. exfalso. apply (Nat.lt_irrefl k).
    eapply Nat.lt_le_trans; eassumption.
  - apply lookup_ge_None in Hp. apply lookup_lt_Some in Hq.
    rewrite Hlen in Hp. exfalso. apply (Nat.lt_irrefl k).
    eapply Nat.lt_le_trans; eassumption.
  - right. split; reflexivity.
Qed.

(** The same event keeps two agreeing states in agreement. *)
Lemma agree_step ev p q : agree p q -> agree (step ev p) (step ev q).
Proof.
  intros H.
  pose proof (agree_exit p q H) as Hx.
  pose proof (agree_listening p q H) as Hl.
  destruct (exit_code p) as [c |] eqn:Hxp.
  { rewrite (step_exited ev p c Hxp), (step_exited ev q c (eq_sym Hx)).
    exact H. }
  destruct (listening p) eqn:Hlp.
  2: { rewrite (step_not_listening ev p Hlp),
         (step_not_listening ev q (eq_sym Hl)). exact H. }
  rewrite (step_running ev p Hxp Hlp),
    (step_running ev q (eq_sym Hx) (eq_sym Hl)).
  destruct ev as [ | [ | ] | | error | error | reason | k outcome ];
    try (apply agree_shutdown; auto with agree).
  - rewrite <- (agree_timer p q H), <- (agree_config p q H).
    destruct (timeoutHandle p); try exact H.
    apply agree_shutdown; auto with agree.
  - destruct (agree_lookup k p q H) as [(r1 & r2 & -> & ->) | [-> ->]];
      [apply agree_resume, H | exact H].
Qed.

Lemma agree_run evs p q : agree p q -> agree (run evs p) (run evs q).
Proof.
  revert p q. induction evs as [| ev evs IH]; intros p q H; simpl;
    [exact H | apply IH, agree_step, H].
Qed.

End ReasonFacts.

(* ===================================================================== *)
(** ** The claims about the lifecycle and the configuration *)
(* ===================================================================== *)

Import Lifecycle LifecycleFacts ReasonFacts.

(** Scenario C of the specification: a termination signal while idle, the
    close succeeds, the process exits with status 0. *)
Example scenario_C :
  let q := run [Signal SIGTERM; CloseSettled 0 (Fulfilled tt)]
               (boot ∅ (Fulfilled tt)) in
  effects q
  = [ Stdout "MCP Server running on stdio"; SetTimeout (Num 300000);
      Stdout "Received SIGTERM, shutting down gracefully...";
      ClearTimeout; TransportClose; ProcessExit 0 ]
  /\ exit_code q = Some 0.
Proof. vm_compute. split; reflexivity. Qed.

(** Scenario D of the specification: the process timeout elapses. *)
Example scenario_D :
  let q := run [TimerElapsed; CloseSettled 0 (Fulfilled tt)]
               (boot ∅ (Fulfilled tt)) in
  effects q
  = [ Stdout "MCP Server running on stdio"; SetTimeout (Num 300000);
      Stdout "Process timeout after 300000ms, shutting down...";
      Stdout "Received timeout, shutting down gracefully...";
      ClearTimeout; TransportClose; ProcessExit 0 ]
  /\ shutdowns q = ["timeout"]
  /\ exit_code q = Some 0.
Proof. vm_compute. repeat split; reflexivity. Qed.

(** Two triggers before the first close settles: [shutdown] runs twice. *)
Example two_triggers :
  shutdowns (run [Signal SIGINT; StdinEnd] (boot ∅ (Fulfilled tt)))
  = ["SIGINT"; "stdin end"].
Proof. vm_compute. reflexivity. Qed.

(** C5: [shutdown] logs its line, then disarms the timer, and only then
    calls [transport.close()] and suspends: the disarming is the first
    thing it does to the process, before the close and before any other
    event can be handled.  Hence, in every state the process can reach
    after some trigger has called [shutdown], and in every state after
    that, the timer is not armed and its elapsing does nothing at all; in
    particular it calls no second [shutdown]. *)
Theorem shutdown_disarms_timer_first :
  (forall signal p,
      effects (exec (shutdown signal) p)
      = (effects p
         ++ [ Stdout (received_line signal); ClearTimeout; TransportClose ])%list
      /\ timeoutHandle (exec (shutdown signal) p) = TimerCleared
      /\ shutdowns (exec (shutdown signal) p)
         = (shutdowns p ++ [signal])%list)
  /\ (forall e connect evs1 evs2,
         shutdowns (run evs1 (boot e connect)) <> [] ->
         timeoutHandle (run evs2 (run evs1 (boot e connect))) <> TimerArmed
         /\ step TimerElapsed (run evs2 (run evs1 (boot e connect)))
            = run evs2 (run evs1 (boot e connect))).
Proof.
  split.
  - intros signal p. rewrite shutdown_exec. cbn.
    rewrite <- !app_assoc. repeat split; reflexivity.
  - intros e connect evs1 evs2 Hs.
    assert (Ht : timeoutHandle (run evs2 (run evs1 (boot e connect)))
                 <> TimerArmed).
    { rewrite <- run_app. apply reachable_invariant.
      rewrite run_app. clear -Hs.
      revert Hs. generalize (run evs1 (boot e connect)) as p.
      induction evs2 as [| ev evs2 IH]; intros p Hs; simpl; [exact Hs |].
      apply IH, step_shutdowns, Hs. }
    split; [exact Ht | apply timer_elapsed_idle, Ht].
Qed.

Lemma shutdown_disarms_timer_first_witness :
  let q := run [UncaughtException VNull]
               (run [Signal SIGTERM] (boot ∅ (Fulfilled tt))) in
  timeoutHandle q <> TimerArmed /\ step TimerElapsed q = q.
Proof.
  apply (proj2 shutdown_disarms_timer_first ∅ (Fulfilled tt)
           [Signal SIGTERM] [UncaughtException VNull]).
  vm_compute. discriminate.
Defined.

(** C6: in a live process, when the close awaited by a suspended
    [shutdown] succeeds the exit status becomes 0, and when it fails the
    exit status becomes 1; when [main()] fails at start-up the exit status
    is 1, no [shutdown] is called and the transport is never closed; and an
    exit status, once set, is final. *)
Theorem exit_codes :
  (forall e connect evs k signal,
      exit_code (run evs (boot e connect)) = None ->
      shutdowns (run evs (boot e connect)) !! k = Some signal ->
      exit_code (step (CloseSettled k (Fulfilled tt))
                   (run evs (boot e connect))) = Some 0
      /\ forall error,
          exit_code (step (CloseSettled k (Rejected error))
                       (run evs (boot e connect))) = Some 1)
  /\ (forall e error,
         exit_code (boot e (Rejected error)) = Some 1
         /\ shutdowns (boot e (Rejected error)) = []
         /\ effects (boot e (Rejected error))
            = [ Stderr [VString "Fatal error in main():"; error];
                ProcessExit 1 ]
         /\ forall evs,
             run evs (boot e (Rejected error)) = boot e (Rejected error))
  /\ (forall p c evs, exit_code p = Some c -> exit_code (run evs p) = Some c).
Proof.
  split; [| split].
  - intros e connect evs k signal Hx Hk.
    assert (Hs : shutdowns (run evs (boot e connect)) <> []).
    { intros Hnil. rewrite Hnil in Hk. discriminate. }
    destruct (reachable_invariant e connect evs Hs) as [Hl _].
    split; [| intros error];
      rewrite (step_running _ _ Hx Hl), Hk, shutdown_resume_exec;
      reflexivity.
  - intros e error. repeat split.
    intros evs. apply (run_exited evs _ 1). reflexivity.
  - intros p c evs H. rewrite (run_exited evs p c H). exact H.
Qed.

Lemma exit_codes_witness :
  exit_code (step (CloseSettled 0 (Fulfilled tt))
               (run [Signal SIGINT] (boot ∅ (Fulfilled tt)))) = Some 0
  /\ exit_code (step (CloseSettled 0 (Rejected (VError "Error" "EPIPE")))
                  (run [Signal SIGINT] (boot ∅ (Fulfilled tt)))) = Some 1.
Proof.
  pose proof (proj1 exit_codes ∅ (Fulfilled tt) [Signal SIGINT] 0%nat "SIGINT"
                eq_refl eq_refl) as [H0 H1].
  split; [exact H0 | exact (H1 (VError "Error" "EPIPE"))].
Defined.

(** C8: in a live process with its listeners installed, each of the
    triggers (the timer, SIGTERM, SIGINT, end of stdin, an error on stdin,
    an uncaught exception, an unhandled rejection) does some logging of its
    own and then calls the one function [shutdown] with its reason.  The
    reason only shows in the "Received ..." line: started from the same
    state with two different reasons, and fed the same later events, the
    two runs agree on configuration, timer, exit status, number of
    suspended shutdowns and, position by position, on every effect other
    than the reason named in that line.  The part of [shutdown] that runs
    after the close has settled does not depend on the reason at all. *)
Theorem triggers_share_one_shutdown :
  (forall p,
      exit_code p = None ->
      listening p = true ->
      (timeoutHandle p = TimerArmed ->
       step TimerElapsed p
       = exec (shutdown "timeout")
           (emit (Stdout ("Process timeout after "
                          +:+ number_to_string
                                (Config.processTimeout (config p))
                          +:+ "ms, shutting down..."))
              (set_timer TimerFired p)))
      /\ step (Signal SIGTERM) p = exec (shutdown "SIGTERM") p
      /\ step (Signal SIGINT) p = exec (shutdown "SIGINT") p
      /\ step StdinEnd p
         = exec (shutdown "stdin end")
             (emit (Stdout "Client disconnected, shutting down...") p)
      /\ (forall error,
             step (StdinError error) p
             = exec (shutdown "stdin error")
                 (emit (Stderr [VString "Stdin error:"; error]) p))
      /\ (forall error,
             step (UncaughtException error) p
             = exec (shutdown "uncaught exception")
                 (emit (Stderr [VString "Uncaught exception:"; error]) p))
      /\ (forall reason,
             step (UnhandledRejection reason) p
             = exec (shutdown "unhandled rejection")
                 (emit (Stderr [VString "Unhandled rejection at:";
                                VObject []; VString "reason:"; reason]) p)))
  /\ (forall r1 r2 p evs,
         agree (run evs (exec (shutdown r1) p))
               (run evs (exec (shutdown r2) p)))
  /\ (forall r1 r2 outcome p,
         exec (shutdown_resume r1 outcome) p
         = exec (shutdown_resume r2 outcome) p).
Proof.
  split; [| split].
  - intros p Hx Hl. repeat split; intros;
      rewrite (step_running _ p Hx Hl); try reflexivity.
    match goal with H : timeoutHandle p = _ |- _ => rewrite H end.
    reflexivity.
  - intros r1 r2 p evs. apply agree_run, agree_shutdown, agree_refl.
  - intros r1 r2 outcome p. rewrite !shutdown_resume_exec. reflexivity.
Qed.

Lemma triggers_share_one_shutdown_witness :
  step (Signal SIGTERM) (boot ∅ (Fulfilled tt))
  = exec (shutdown "SIGTERM") (boot ∅ (Fulfilled tt))
  /\ step TimerElapsed (boot ∅ (Fulfilled tt))
     = exec (shutdown "timeout")
         (emit (Stdout "Process timeout after 300000ms, shutting down...")
            (set_timer TimerFired (boot ∅ (Fulfilled tt)))).
Proof.
  pose proof (proj1 triggers_share_one_shutdown (boot ∅ (Fulfilled tt))
                eq_refl eq_refl) as (Htimer & Hterm & _).
  split; [exact Hterm | exact (Htimer eq_refl)].
Defined.

(** C9: the configuration is evaluated from the environment when the
    module starts and never again: whatever events follow and whatever is
    later written to the environment, [config] is still what the start-up
    environment gave, and the callback builds its request from [config],
    not from the environment.  For a variable that is unset the value is
    the default: 3 retries, 60000 ms per call, "medium" search context
    size, "medium" reasoning effort, 300000 ms of process time; the client
    is built with the first two.  For a variable that is set to non-empty
    text, the value comes from that text: the two tiers are the text
    itself, the three numbers are what [parseInt] reads from it; the API
    key is the variable as it is. *)
Theorem config_read_once_with_defaults :
  (forall e : Config.env,
      (e !! "OPENAI_MAX_RETRIES" = None ->
       Config.maxRetries (Config.load e) = Num 3
       /\ maxRetries (openai (Config.load e)) = Num 3)
      /\ (e !! "OPENAI_API_TIMEOUT" = None ->
          Config.timeout (Config.load e) = Num 60000
          /\ timeout (openai (Config.load e)) = Num 60000)
      /\ (e !! "SEARCH_CONTEXT_SIZE" = None ->
          Config.searchContextSize (Config.load e) = "medium")
      /\ (e !! "REASONING_EFFORT" = None ->
          Config.reasoningEffort (Config.load e) = "medium")
      /\ (e !! "PROCESS_TIMEOUT" = None ->
          Config.processTimeout (Config.load e) = Num 300000))
  /\ (forall e connect evs1 k v evs2,
         config (boot e connect) = Config.load e
         /\ config (run evs2 (setenv k v (run evs1 (boot e connect))))
            = Config.load e)
  /\ (forall create input k v p,
         fst (handler create input (setenv k v p))
         = fst (handler create input p)
         /\ upstream_calls (snd (handler create input (setenv k v p)))
            = upstream_calls (snd (handler create input p)))
  /\ (forall (e : Config.env) (s : string),
         s <> "" ->
         (e !! "OPENAI_MAX_RETRIES" = Some s ->
          Config.maxRetries (Config.load e) = parseInt s
          /\ maxRetries (openai (Config.load e)) = parseInt s)
         /\ (e !! "OPENAI_API_TIMEOUT" = Some s ->
             Config.timeout (Config.load e) = parseInt s
             /\ timeout (openai (Config.load e)) = parseInt s)
         /\ (e !! "SEARCH_CONTEXT_SIZE" = Some s ->
             Config.searchContextSize (Config.load e) = s)
         /\ (e !! "REASONING_EFFORT" = Some s ->
             Config.reasoningEffort (Config.load e) = s)
         /\ (e !! "PROCESS_TIMEOUT" = Some s ->
             Config.processTimeout (Config.load e) = parseInt s))
  /\ (forall e : Config.env,
         Config.apiKey (Config.load e) = e !! "OPENAI_API_KEY"
         /\ apiKey (openai (Config.load e)) = e !! "OPENAI_API_KEY").
Proof.
  split; [| split; [| split; [| split]]].
  - intros e. unfold Config.load, openai; cbn.
    refine (conj _ (conj _ (conj _ (conj _ _)))); intros ->;
      try split; reflexivity.
  - intros e connect evs1 k v evs2. split; [apply boot_config |].
    rewrite run_config. cbn. rewrite run_config. apply boot_config.
  - intros create input k v p.
    rewrite !handler_upstream_calls.
    split; [| reflexivity].
    destruct (create (request (config p) input)) as [r | V] eqn:Hc.
    + rewrite (handler_fulfilled create input (setenv k v p) r Hc).
      rewrite (handler_fulfilled create input p r Hc). reflexivity.
    + rewrite (handler_rejected create input (setenv k v p) V Hc).
      rewrite (handler_rejected create input p V Hc). reflexivity.
  - intros e s Hs. unfold Config.load, openai;
      cbn [Config.maxRetries Config.timeout Config.searchContextSize
           Config.reasoningEffort Config.processTimeout
           maxRetries timeout].
    refine (conj _ (conj _ (conj _ (conj _ _)))); intros ->;
      rewrite !(or_truthy s _ Hs); try split; reflexivity.
  - intros e. split; reflexivity.
Qed.

Lemma config_read_once_with_defaults_witness :
  Config.maxRetries (Config.load ∅) = Num 3
  /\ Config.timeout (Config.load ∅) = Num 60000
  /\ Config.searchContextSize (Config.load ∅) = "medium"
  /\ Config.reasoningEffort (Config.load ∅) = "medium"
  /\ Config.processTimeout (Config.load ∅) = Num 300000
  /\ Config.maxRetries
       (Config.load (<["OPENAI_MAX_RETRIES" := "5"]> ∅)) = Num 5
  /\ Config.searchContextSize
       (Config.load (<["SEARCH_CONTEXT_SIZE" := "high"]> ∅)) = "high"
  /\ Config.processTimeout
       (Config.load (<["PROCESS_TIMEOUT" := "1000"]> ∅)) = Num 1000.
Proof.
  pose proof (proj1 config_read_once_with_defaults ∅)
    as (H1 & H2 & H3 & H4 & H5).
  pose proof (proj1 (proj2 (proj2 (proj2 config_read_once_with_defaults))))
    as Hset.
  refine (conj _ (conj _ (conj _ (conj _ (conj _ (conj _ (conj _ _))))))).
  - apply H1. reflexivity.
  - apply H2. reflexivity.
  - apply H3. reflexivity.
  - apply H4. reflexivity.
  - apply H5. reflexivity.
  - destruct (Hset (<["OPENAI_MAX_RETRIES" := "5"]> ∅) "5"
                ltac:(discriminate)) as (Hr & _).
    exact (proj1 (Hr eq_refl)).
  - destruct (Hset (<["SEARCH_CONTEXT_SIZE" := "high"]> ∅) "high"
                ltac:(discriminate)) as (_ & _ & Hsize & _).
    exact (Hsize eq_refl).
  - destruct (Hset (<["PROCESS_TIMEOUT" := "1000"]> ∅) "1000"
                ltac:(discriminate)) as (_ & _ & _ & _ & Hp).
    exact (Hp eq_refl).
Defined.

(* ===================================================================== *)
(** ** Further properties: numbers read from the environment *)
(* ===================================================================== *)

Module ParseFacts.
Import Js.

Lemma radix_digit_pretty_char (d : N) :
  (d < 10)%N -> radix_digit 10 (pretty_N_char d) = Some (Z.of_N d).
Proof.
  intros Hd.
  assert (d = 0 \/ d = 1 \/ d = 2 \/ d = 3 \/ d = 4 \/ d = 5 \/ d = 6
          \/ d = 7 \/ d = 8 \/ d = 9)%N as Hcases by lia.
  repeat (destruct Hcases as [-> | Hcases]; [reflexivity |]).
  subst d. reflexivity.
Qed.

(** The digits of a number are put in front of what follows. *)
Lemma pretty_N_go_app (x : N) (s r : string) :
  pretty_N_go x s +:+ r = pretty_N_go x (s +:+ r).
Proof.
  revert s. induction (N.lt_wf_0 x) as [x _ IH]; intros s.
  assert (x = 0 \/ 0 < x)%N as [-> | Hx] by lia.
  - rewrite !pretty_N_go_0. reflexivity.
  - rewrite (pretty_N_go_step x s), (pretty_N_go_step x (s +:+ r))
      by exact Hx.
    rewrite IH by (apply N.div_lt; [exact Hx | reflexivity]).
    reflexivity.
Qed.

(** Reading back the digits of a positive number. *)
Lemma parse_digits_pretty (x : N) (s : string) :
  (0 < x)%N ->
  parse_digits 10 (pretty_N_go x s) None
  = parse_digits 10 s (Some (Z.of_N x)).
Proof.
  revert s. induction (N.lt_wf_0 x) as [x _ IH]; intros s Hx.
  rewrite pretty_N_go_step by exact Hx.
  pose proof (N.div_mod x 10 ltac:(discriminate)) as Hdiv.
  pose proof (N.mod_lt x 10 ltac:(discriminate)) as Hmod.
  assert (x `div` 10 = 0 \/ 0 < x `div` 10)%N as [H0 | Hpos] by lia.
  - rewrite H0, pretty_N_go_0. cbn [parse_digits].
    rewrite radix_digit_pretty_char by exact Hmod.
    do 2 f_equal. lia.
  - rewrite IH; [| apply N.div_lt; [exact Hx | reflexivity] | exact Hpos].
    cbn [parse_digits].
    rewrite radix_digit_pretty_char by exact Hmod.
    do 2 f_equal. lia.
Qed.

(** The first digit of a positive number is not zero. *)
Lemma pretty_N_go_head (x : N) (s : string) :
  (0 < x)%N ->
  exists d rest,
    (0 < d < 10)%N /\ pretty_N_go x s = String (pretty_N_char d) rest.
Proof.
  revert s. induction (N.lt_wf_0 x) as [x _ IH]; intros s Hx.
  rewrite pretty_N_go_step by exact Hx.
  pose proof (N.div_mod x 10 ltac:(discriminate)) as Hdiv.
  pose proof (N.mod_lt x 10 ltac:(discriminate)) as Hmod.
  assert (x `div` 10 = 0 \/ 0 < x `div` 10)%N as [H0 | Hpos] by lia.
  - rewrite H0, pretty_N_go_0.
    exists (x `mod` 10)%N, s. split; [lia | reflexivity].
  - apply IH; [apply N.div_lt; [exact Hx | reflexivity] | exact Hpos].
Qed.

Import Numerals.

Lemma parse_digits_tail (r : string) (acc : Z) :
  is_tail r -> parse_digits 10 r (Some acc) = Some acc.
Proof.
  destruct r as [| c r]; [reflexivity |].
  intros (Hc & _ & _). cbn [parse_digits]. rewrite Hc. reflexivity.
Qed.

Lemma parseInt_nonzero_digit (d : N) (rest : string) :
  (0 < d < 10)%N ->
  parseInt (String (pretty_N_char d) rest)
  = match parse_digits 10 (String (pretty_N_char d) rest) None with
    | Some m => of_integer (1 * m)
    | None => NaN
    end.
Proof.
  intros Hd.
  assert (d = 1 \/ d = 2 \/ d = 3 \/ d = 4 \/ d = 5 \/ d = 6
          \/ d = 7 \/ d = 8 \/ d = 9)%N as Hcases by lia.
  repeat (destruct Hcases as [-> | Hcases]; [reflexivity |]).
  subst d. reflexivity.
Qed.

Lemma parseInt_minus_digit (d : N) (rest : string) :
  (0 < d < 10)%N ->
  parseInt (String "-" (String (pretty_N_char d) rest))
  = match parse_digits 10 (String (pretty_N_char d) rest) None with
    | Some m => of_integer (-1 * m)
    | None => NaN
    end.
Proof.
  intros Hd.
  assert (d = 1 \/ d = 2 \/ d = 3 \/ d = 4 \/ d = 5 \/ d = 6
          \/ d = 7 \/ d = 8 \/ d = 9)%N as Hcases by lia.
  repeat (destruct Hcases as [-> | Hcases]; [reflexivity |]).
  subst d. reflexivity.
Qed.

Lemma strip_hex_prefix_zero (c : ascii) (r : string) :
  c <> "x"%char -> c <> "X"%char ->
  strip_hex_prefix (String "0" (String c r))
  = (10, String "0" (String c r)).
Proof.
  intros Hx HX.
  destruct c as [[] [] [] [] [] [] [] []];
    first [reflexivity | exfalso; apply Hx; reflexivity
          | exfalso; apply HX; reflexivity].
Qed.

Lemma pretty_pos (p : positive) :
  pretty (Z.pos p) = pretty_N_go (N.pos p) "".
Proof. reflexivity. Qed.

Lemma pretty_neg (p : positive) :
  pretty (Z.neg p) = String "-" (pretty_N_go (N.pos p) "").
Proof. reflexivity. Qed.

(** [parseInt] reads an integer back from its decimal numeral, whatever
    tail follows the numeral, and rounds it to a double. *)
Lemma parseInt_numeral (z : Z) (r : string) :
  is_tail r -> parseInt (pretty z +:+ r) = of_integer z.
Proof.
  intros Hr. destruct z as [| p | p].
  - change (pretty 0 +:+ r) with (String "0" r).
    destruct r as [| c r]; [reflexivity |].
    destruct Hr as (Hc & Hx & HX).
    unfold parseInt.
    change (trim_start (String "0" (String c r)))
      with (String "0" (String c r)).
    change (strip_sign (String "0" (String c r)))
      with (1, String "0" (String c r)).
    cbv iota beta. rewrite (strip_hex_prefix_zero c r Hx HX).
    cbn [parse_digits].
    change (radix_digit 10 "0") with (Some 0). cbv iota beta.
    rewrite Hc. reflexivity.
  - rewrite pretty_pos, pretty_N_go_app.
    change ("" +:+ r) with r.
    destruct (pretty_N_go_head (N.pos p) r ltac:(reflexivity))
      as (d & rest & Hd & Heq).
    rewrite Heq, (parseInt_nonzero_digit d rest Hd), <- Heq.
    rewrite parse_digits_pretty by reflexivity.
    rewrite (parse_digits_tail r _ Hr). reflexivity.
  - rewrite pretty_neg.
    change (String "-" (pretty_N_go (N.pos p) "") +:+ r)
      with (String "-" (pretty_N_go (N.pos p) "" +:+ r)).
    rewrite pretty_N_go_app. change ("" +:+ r) with r.
    destruct (pretty_N_go_head (N.pos p) r ltac:(reflexivity))
      as (d & rest & Hd & Heq).
    rewrite Heq, (parseInt_minus_digit d rest Hd), <- Heq.
    rewrite parse_digits_pretty by reflexivity.
    rewrite (parse_digits_tail r _ Hr). reflexivity.
Qed.

Lemma numeral_nonempty (z : Z) (r : string) : pretty z +:+ r <> "".
Proof.
  destruct z as [| p | p].
  - discriminate.
  - rewrite pretty_pos, pretty_N_go_app.
    destruct (pretty_N_go_head (N.pos p) ("" +:+ r) ltac:(reflexivity))
      as (d & rest & _ & ->). discriminate.
  - rewrite pretty_neg. discriminate.
Qed.

(** Integers of less than 54 bits are doubles. *)
Lemma round_to_double_safe (m : Z) :
  0 <= m < 2 ^ 53 -> round_to_double m = m.
Proof.
  intros [H0 H53]. unfold round_to_double.
  assert (Hlog : Z.log2 m < 53).
  { destruct (Z.eq_dec m 0) as [-> | Hne]; [reflexivity |].
    apply Z.log2_lt_pow2; lia. }
  destruct (Z.leb_spec (Z.log2 m + 1) 53); [reflexivity | lia].
Qed.

Lemma of_integer_safe (z : Z) :
  - 2 ^ 53 < z < 2 ^ 53 -> of_integer z = Num z.
Proof.
  intros Hz. unfold of_integer.
  rewrite round_to_double_safe by lia.
  rewrite Z.shiftl_1_l.
  assert (2 ^ 53 < 2 ^ 1024) by (apply Z.pow_lt_mono_r; lia).
  destruct (Z.leb_spec (2 ^ 1024) (Z.abs z)); [lia |].
  f_equal. destruct z; reflexivity.
Qed.


End ParseFacts.

(* ===================================================================== *)
(** ** Further properties of the configuration *)
(* ===================================================================== *)

Import Numerals ParseFacts.

(** X1: for each of the five variables that have a default, a value that
    is the empty string gives the same configuration as the variable
    being unset: [||] takes the default for both. *)
Theorem empty_value_is_unset (e : Config.env) (k : string) :
  k ∈ ["OPENAI_MAX_RETRIES"; "OPENAI_API_TIMEOUT"; "SEARCH_CONTEXT_SIZE";
       "REASONING_EFFORT"; "PROCESS_TIMEOUT"] ->
  e !! k = Some "" ->
  Config.load e = Config.load (delete k e).
Proof.
  intros Hk He. unfold Config.load.
  repeat (apply elem_of_cons in Hk as [-> | Hk];
          [ rewrite ?lookup_delete_eq, He;
            rewrite ?lookup_delete_ne by discriminate; reflexivity |]).
  apply elem_of_nil in Hk. contradiction.
Qed.

Lemma empty_value_is_unset_witness :
  Config.load (<["REASONING_EFFORT" := ""]> ∅) = Config.load ∅.
Proof.
  rewrite (empty_value_is_unset (<["REASONING_EFFORT" := ""]> ∅)
             "REASONING_EFFORT").
  - reflexivity.
  - do 3 apply list_elem_of_further. apply list_elem_of_here.
  - reflexivity.
Defined.

(** X2: the configuration depends on six variables only: setting any
    other variable, to anything, leaves it as it is. *)
Theorem other_variables_ignored (e : Config.env) (k v : string) :
  k ∉ ["OPENAI_API_KEY"; "OPENAI_MAX_RETRIES"; "OPENAI_API_TIMEOUT";
       "SEARCH_CONTEXT_SIZE"; "REASONING_EFFORT"; "PROCESS_TIMEOUT"] ->
  Config.load (<[k := v]> e) = Config.load e.
Proof.
  intros Hk. rewrite !not_elem_of_cons in Hk.
  destruct Hk as (H1 & H2 & H3 & H4 & H5 & H6 & _).
  unfold Config.load.
  rewrite !lookup_insert_ne by congruence. reflexivity.
Qed.

Lemma other_variables_ignored_witness :
  Config.load (<["HOME" := "/root"]> ∅) = Config.load ∅.
Proof.
  apply (other_variables_ignored ∅ "HOME" "/root").
  rewrite !not_elem_of_cons. repeat split; try discriminate.
  apply not_elem_of_nil.
Defined.

(** X3: the two tiers are not checked against low/medium/high: whatever
    non-empty text the variables hold at start-up is what every later
    request carries, after any events. *)
Theorem tiers_reach_the_request_unchecked
  (e : Config.env) (size effort_ : string)
  (connect : settled unit) (evs : list event) (input : string) :
  e !! "SEARCH_CONTEXT_SIZE" = Some size -> size <> "" ->
  e !! "REASONING_EFFORT" = Some effort_ -> effort_ <> "" ->
  tools (request (config (run evs (boot e connect))) input)
  = [ {| tool_type := "web_search_preview"; search_context_size := size |} ]
  /\ reasoning (request (config (run evs (boot e connect))) input)
     = {| effort := effort_ |}.
Proof.
  intros Hs Hsn He Hen. rewrite run_config, boot_config.
  unfold request, Config.load; cbn.
  rewrite Hs, He, !or_truthy by assumption. split; reflexivity.
Qed.

Lemma tiers_reach_the_request_unchecked_witness :
  let e : Config.env :=
    <["SEARCH_CONTEXT_SIZE" := "huge"]> (<["REASONING_EFFORT" := "none"]> ∅) in
  tools (request (config (run [StdinEnd] (boot e (Fulfilled tt)))) "q")
  = [ {| tool_type := "web_search_preview"; search_context_size := "huge" |} ]
  /\ reasoning (request (config (run [StdinEnd] (boot e (Fulfilled tt)))) "q")
     = {| effort := "none" |}.
Proof.
  intros e.
  apply (tiers_reach_the_request_unchecked e "huge" "none");
    first [reflexivity | discriminate].
Defined.

(** X4: a numeric variable that holds the decimal numeral of an integer
    [z] (negative ones included), followed by nothing or by text that
    starts with neither a digit nor [x]/[X], is read as the double nearest
    to [z], which is [z] itself as long as [z] is below 2^53 in absolute
    value: what follows the numeral is dropped without complaint, and no
    range is imposed. *)
Theorem numeric_variables_read_numerals
  (e : Config.env) (z : Z) (r : string) :
  is_tail r ->
  (e !! "OPENAI_MAX_RETRIES" = Some (pretty z +:+ r) ->
   Config.maxRetries (Config.load e) = of_integer z)
  /\ (e !! "OPENAI_API_TIMEOUT" = Some (pretty z +:+ r) ->
      Config.timeout (Config.load e) = of_integer z)
  /\ (e !! "PROCESS_TIMEOUT" = Some (pretty z +:+ r) ->
      Config.processTimeout (Config.load e) = of_integer z)
  /\ (- 2 ^ 53 < z < 2 ^ 53 -> of_integer z = Num z).
Proof.
  intros Hr. unfold Config.load; cbn [Config.maxRetries Config.timeout
                                      Config.processTimeout].
  refine (conj _ (conj _ (conj _ _)));
    [intros -> | intros -> | intros -> | apply of_integer_safe];
    rewrite or_truthy by apply numeral_nonempty;
    apply parseInt_numeral, Hr.
Qed.

Lemma numeric_variables_read_numerals_witness :
  Config.timeout (Config.load (<["OPENAI_API_TIMEOUT" := "-60s"]> ∅))
  = Num (-60).
Proof.
  pose proof (numeric_variables_read_numerals
                (<["OPENAI_API_TIMEOUT" := "-60s"]> ∅) (-60) "s"
                ltac:(vm_compute; repeat split; discriminate))
    as (_ & Htimeout & _ & Hsafe).
  rewrite (Htimeout eq_refl). apply Hsafe. split; reflexivity.
Defined.



(* ===================================================================== *)
(** ** Further properties of the tool and of the server as a whole *)
(* ===================================================================== *)

Module ServerFacts.
Import Js Runtime Handler HandlerFacts Lifecycle LifecycleFacts Server.

Section WithUpstream.

Variable create : ResponseCreateParams -> settled Response.

Lemma handler_view input p :
  lifecycle_view (snd (handler create input p)) = lifecycle_view p.
Proof.
  destruct (create (request (config p) input)) as [r | V] eqn:Hc.
  - rewrite (handler_fulfilled create input p r Hc). reflexivity.
  - rewrite (handler_rejected create input p V Hc). reflexivity.
Qed.

(** The three ways a call can go. *)
Lemma call_tool_cases args p :
  call_tool (o3_search create) args p
  = match get args "input" with
    | VString s => (r ← handler create s; mret (Result r)) p
    | _ => (Normal InvalidParams, p)
    end.
Proof.
  destruct args as [ | | | | | props | ]; try reflexivity.
  unfold call_tool, Zod.parse_object; simpl.
  destruct (get_prop "input" props); reflexivity.
Qed.

Lemma call_tool_view args p :
  lifecycle_view (exec (call_tool (o3_search create) args) p)
  = lifecycle_view p.
Proof.
  unfold exec. rewrite call_tool_cases.
  destruct (get args "input") as [ | | | | s | | ]; try reflexivity.
  unfold mbind, M_bind, bind.
  pose proof (handler_view s p) as Hv.
  destruct (handler create s p) as [[r | e | c] p']; exact Hv.
Qed.

End WithUpstream.

(** One turn of the loop decides and acts on the view alone. *)
Lemma step_view ev p q :
  lifecycle_view p = lifecycle_view q ->
  lifecycle_view (step ev p) = lifecycle_view (step ev q).
Proof.
  destruct p as [e1 c1 t1 l1 s1 f1 x1], q as [e2 c2 t2 l2 s2 f2 x2].
  unfold lifecycle_view; cbn. intros [= -> -> -> -> -> ->].
  unfold step; cbn.
  destruct x2; [reflexivity |]. destruct l2; [| reflexivity]. cbn.
  destruct ev as [ | [ | ] | | | | | k outcome ]; try reflexivity.
  - destruct t2; reflexivity.
  - destruct (s2 !! k); [destruct outcome |]; reflexivity.
Qed.

Lemma serve_view create acts p q :
  lifecycle_view p = lifecycle_view q ->
  lifecycle_view (serve create acts p)
  = lifecycle_view (run (loop_events acts) q).
Proof.
  revert p q. induction acts as [| a acts IH]; intros p q Hv; [exact Hv |].
  destruct a as [ev | args]; cbn [serve loop_events omap act].
  - apply IH, step_view, Hv.
  - apply IH. destruct (exit_code p); [exact Hv |].
    rewrite call_tool_view. exact Hv.
Qed.

End ServerFacts.

Import Server ServerFacts.

(** X6: the callback changes nothing of the process but its trace, to
    which it adds the upstream call and, exactly when that call rejects,
    one entry on stderr that carries the rejection value; it writes nothing
    to stdout. *)
Theorem handler_touches_only_the_trace
  (create : ResponseCreateParams -> settled Response)
  (input : string) (p : process) :
  lifecycle_view (snd (handler create input p)) = lifecycle_view p
  /\ effects (snd (handler create input p))
     = (effects p
        ++ UpstreamCall (request (config p) input)
           :: match create (request (config p) input) with
              | Fulfilled _ => []
              | Rejected V => [ Stderr [VString "Error calling OpenAI API:"; V] ]
              end)%list.
Proof.
  split; [apply handler_view |].
  destruct (create (request (config p) input)) as [r | V] eqn:Hc.
  - rewrite (handler_fulfilled create input p r Hc). reflexivity.
  - rewrite (handler_rejected create input p V Hc). cbn.
    rewrite <- app_assoc. reflexivity.
Qed.

(** X7: a call whose arguments hold a string under [input] runs the
    callback on that string, whatever else the arguments hold; every other
    call (no [input], an [input] that is not a string, arguments that are
    no object) is answered as invalid without running the callback: no
    upstream call, no log, the process as it was. *)
Theorem call_tool_validates_input
  (create : ResponseCreateParams -> settled Response)
  (args : value) (p : process) :
  (forall s, get args "input" = VString s ->
     call_tool (o3_search create) args p
     = (r ← handler create s; mret (Result r)) p)
  /\ ((forall s, get args "input" <> VString s) ->
      call_tool (o3_search create) args p = (Normal InvalidParams, p)).
Proof.
  rewrite call_tool_cases. split.
  - intros s ->. reflexivity.
  - intros Hn. destruct (get args "input") as [ | | | | s | | ];
      try reflexivity.
    destruct (Hn s eq_refl).
Qed.

Lemma call_tool_validates_input_witness :
  let create := fun _ : ResponseCreateParams =>
                  Fulfilled {| output_text := Some "ok" |} in
  fst (call_tool (o3_search create)
         (VObject [("verbose", VBool true); ("input", VString "hi")])
         (initial ∅))
  = Normal (Result (text_result "ok"))
  /\ call_tool (o3_search create) (VObject [("input", VNumber (Num 3))])
       (initial ∅)
     = (Normal InvalidParams, initial ∅).
Proof.
  intros create. split.
  - rewrite (proj1 (call_tool_validates_input create
                      (VObject [("verbose", VBool true);
                                ("input", VString "hi")]) (initial ∅))
               "hi" eq_refl).
    reflexivity.
  - apply (proj2 (call_tool_validates_input create
                    (VObject [("input", VNumber (Num 3))]) (initial ∅))).
    intros s. discriminate.
Defined.

(** X8: tool calls are invisible to the lifecycle.  However calls (valid
    or not, resolving or rejecting upstream) are mixed with the events of
    the loop, the environment, configuration, timer, listeners, suspended
    shutdowns and exit status end up exactly as with the events alone: no
    call can end the process, disarm the timer or start a shutdown. *)
Theorem tool_calls_leave_the_lifecycle_alone
  (create : ResponseCreateParams -> settled Response)
  (acts : list activity) (p : process) :
  lifecycle_view (serve create acts p)
  = lifecycle_view (run (loop_events acts) p).
Proof. apply serve_view. reflexivity. Qed.

(* ===================================================================== *)
(** ** Further properties of the lifecycle *)
(* ===================================================================== *)

Module TraceFacts.
Import Js Runtime Lifecycle LifecycleFacts Server.

(** Induction over the states a process can reach. *)
Lemma reachable_ind (P : process -> Prop) :
  (forall e connect, P (boot e connect)) ->
  (forall ev p, P p -> P (step ev p)) ->
  forall e connect evs, P (run evs (boot e connect)).
Proof.
  intros Hboot Hstep e connect evs.
  generalize (Hboot e connect). generalize (boot e connect) as p.
  induction evs as [| ev evs IH]; intros p Hp; [exact Hp |].
  apply IH, Hstep, Hp.
Qed.

Lemma exits_emit e p :
  exits (emit e p)
  = (exits p ++ match e with ProcessExit c => [c] | _ => [] end)%list.
Proof. unfold exits; cbn. rewrite omap_app. destruct e; reflexivity. Qed.

Lemma close_calls_emit e p :
  close_calls (emit e p)
  = (close_calls p + match e with TransportClose => 1 | _ => 0 end)%nat.
Proof.
  unfold close_calls; cbn. rewrite omap_app, length_app.
  destruct e; reflexivity.
Qed.

(** [shutdown] in terms of the counters. *)
Lemma shutdown_counts signal p :
  exits (exec (shutdown signal) p) = exits p
  /\ close_calls (exec (shutdown signal) p) = S (close_calls p)
  /\ shutdowns (exec (shutdown signal) p) = (shutdowns p ++ [signal])%list
  /\ exit_code (exec (shutdown signal) p) = exit_code p
  /\ listening (exec (shutdown signal) p) = listening p.
Proof.
  rewrite shutdown_exec.
  change (exits (push_shutdown signal
                   (set_timer TimerCleared
                      (emit TransportClose
                         (emit ClearTimeout
                            (emit (Stdout (received_line signal)) p))))))
    with (exits (emit TransportClose
                   (emit ClearTimeout
                      (emit (Stdout (received_line signal)) p)))).
  change (close_calls (push_shutdown signal
                         (set_timer TimerCleared
                            (emit TransportClose
                               (emit ClearTimeout
                                  (emit (Stdout (received_line signal)) p))))))
    with (close_calls (emit TransportClose
                         (emit ClearTimeout
                            (emit (Stdout (received_line signal)) p)))).
  rewrite !exits_emit, !close_calls_emit, !app_nil_r.
  repeat split; [lia ..].
Qed.

(** [shutdown] after the close has settled, in terms of the counters. *)
Lemma resume_counts signal outcome p :
  let c := match outcome with Fulfilled _ => 0 | Rejected _ => 1 end in
  exits (exec (shutdown_resume signal outcome) p) = (exits p ++ [c])%list
  /\ last (effects (exec (shutdown_resume signal outcome) p))
     = Some (ProcessExit c)
  /\ close_calls (exec (shutdown_resume signal outcome) p) = close_calls p
  /\ shutdowns (exec (shutdown_resume signal outcome) p) = shutdowns p
  /\ exit_code (exec (shutdown_resume signal outcome) p) = Some c
  /\ timeoutHandle (exec (shutdown_resume signal outcome) p)
     = timeoutHandle p
  /\ listening (exec (shutdown_resume signal outcome) p) = listening p.
Proof.
  rewrite shutdown_resume_exec. destruct outcome as [u | error]; cbn zeta.
  - change (exits (set_exit_code 0 (emit (ProcessExit 0) p)))
      with (exits (emit (ProcessExit 0) p)).
    change (close_calls (set_exit_code 0 (emit (ProcessExit 0) p)))
      with (close_calls (emit (ProcessExit 0) p)).
    rewrite exits_emit, close_calls_emit.
    repeat split; [apply last_snoc | lia].
  - change (exits (set_exit_code 1
                     (emit (ProcessExit 1)
                        (emit (Stderr [VString "Error during shutdown:";
                                       error]) p))))
      with (exits (emit (ProcessExit 1)
                     (emit (Stderr [VString "Error during shutdown:";
                                    error]) p))).
    change (close_calls (set_exit_code 1
                           (emit (ProcessExit 1)
                              (emit (Stderr [VString "Error during shutdown:";
                                             error]) p))))
      with (close_calls (emit (ProcessExit 1)
                           (emit (Stderr [VString "Error during shutdown:";
                                          error]) p))).
    rewrite !exits_emit, !close_calls_emit, app_nil_r.
    repeat split; [apply last_snoc | lia].
Qed.

(** What one turn of the loop of a live, listening process comes to: it
    is idle, or a listener calls [shutdown] after logging (and, for the
    timer, after the timer has fired), or a suspended [shutdown] is
    resumed. *)
Lemma step_forms ev p :
  exit_code p = None ->
  listening p = true ->
  step ev p = p
  \/ (exists signal p0,
         step ev p = exec (shutdown signal) p0
         /\ exits p0 = exits p /\ close_calls p0 = close_calls p
         /\ shutdowns p0 = shutdowns p /\ exit_code p0 = None
         /\ listening p0 = true
         /\ (signal = "timeout" -> timeoutHandle p = TimerArmed)
         /\ (timeoutHandle p <> TimerArmed -> timeoutHandle p0 = timeoutHandle p))
  \/ (exists k signal outcome,
         shutdowns p !! k = Some signal
         /\ step ev p = exec (shutdown_resume signal outcome) p).
Proof.
  intros Hx Hl. rewrite (step_running ev p Hx Hl).
  destruct ev as [ | [ | ] | | error | error | reason | k outcome ].
  - destruct (timeoutHandle p) eqn:Ht; auto.
    right; left. eexists _, _. split; [reflexivity |].
    change (exits (emit ?e (set_timer ?t p))) with (exits (emit e p)).
    change (close_calls (emit ?e (set_timer ?t p)))
      with (close_calls (emit e p)).
    rewrite exits_emit, close_calls_emit, app_nil_r.
    repeat split; auto with lia. congruence.
  - right; left. eexists _, p. repeat split; auto; discriminate.
  - right; left. eexists _, p. repeat split; auto; discriminate.
  - right; left. eexists _, _. split; [reflexivity |].
    rewrite exits_emit, close_calls_emit, app_nil_r.
    repeat split; auto with lia; discriminate.
  - right; left. eexists _, _. split; [reflexivity |].
    rewrite exits_emit, close_calls_emit, app_nil_r.
    repeat split; auto with lia; discriminate.
  - right; left. eexists _, _. split; [reflexivity |].
    rewrite exits_emit, close_calls_emit, app_nil_r.
    repeat split; auto with lia; discriminate.
  - right; left. eexists _, _. split; [reflexivity |].
    rewrite exits_emit, close_calls_emit, app_nil_r.
    repeat split; auto with lia; discriminate.
  - destruct (shutdowns p !! k) as [signal |] eqn:Hk; auto.
    right; right. eauto.
Qed.

Lemma boot_sound e connect : sound (boot e connect).
Proof.
  destruct connect as [u | error]; split; cbn;
    try reflexivity; try discriminate; try congruence.
  - intros Hs. destruct Hs. reflexivity.
  - intros c [= <-]. repeat split. left. reflexivity.
Qed.

Lemma step_sound ev p : sound p -> sound (step ev p).
Proof.
  intros Hp.
  destruct (exit_code p) as [c |] eqn:Hx.
  { rewrite (step_exited ev p c Hx). exact Hp. }
  assert (Hlisten : listening p = false \/ listening p = true)
    by (destruct (listening p); auto).
  destruct Hlisten as [Hl | Hl].
  { rewrite (step_not_listening ev p Hl). exact Hp. }
  destruct (step_forms ev p Hx Hl)
    as [-> | [(signal & p0 & -> & He & Hc & Hs & Hx0 & Hl0 & Ht & _)
             | (k & signal & outcome & Hk & ->)]].
  - exact Hp.
  - destruct (shutdown_counts signal p0) as (He' & Hc' & Hs' & Hx' & Hl').
    split.
    + rewrite Hc', Hs', length_app, Hc, Hs, (sound_closes p Hp). cbn. lia.
    + intros _. rewrite Hl'. exact Hl0.
    + rewrite shutdown_exec. discriminate.
    + intros j. rewrite Hs', Hs. intros Hj.
      apply lookup_app_Some in Hj as [Hj | [Hlen Hj]].
      * apply (sound_timeout p Hp), Hj.
      * destruct (j - length (shutdowns p))%nat as [| n] eqn:Hn;
          [| cbn in Hj; first [discriminate | destruct n; discriminate]].
        cbn in Hj. injection Hj as ->.
        rewrite (sound_armed p Hp (Ht eq_refl)) in Hlen, Hn. cbn in *. lia.
    + intros _. rewrite He', He. apply (sound_alive p Hp Hx).
    + intros c Hc0. rewrite Hx', Hx0 in Hc0. discriminate.
  - destruct (resume_counts signal outcome p)
      as (He' & Hlast & Hc' & Hs' & Hx' & Ht' & Hl').
    assert (Hne : shutdowns p <> []).
    { intros Hnil. rewrite Hnil, lookup_nil in Hk. discriminate. }
    split.
    + rewrite Hc', Hs'. apply (sound_closes p Hp).
    + intros _. rewrite Hl'. exact Hl.
    + rewrite Ht', Hs'. apply (sound_armed p Hp).
    + rewrite Hs'. apply (sound_timeout p Hp).
    + rewrite Hx'. discriminate.
    + intros c. rewrite Hx'. intros [= <-].
      rewrite He', (sound_alive p Hp Hx), Hs'.
      split; [reflexivity | split; [exact Hlast |]].
      destruct outcome; [right; split; [reflexivity | exact Hne] | left];
        reflexivity.
Qed.

Lemma reachable_sound e connect evs : sound (run evs (boot e connect)).
Proof.
  apply (reachable_ind sound); [apply boot_sound | apply step_sound].
Qed.

(** One of the six unconditional triggers, delivered to a live process. *)
Lemma trigger_step ev r p :
  exit_code p = None ->
  listening p = true ->
  trigger_reason ev = Some r ->
  shutdowns (step ev p) = (shutdowns p ++ [r])%list
  /\ close_calls (step ev p) = S (close_calls p)
  /\ exit_code (step ev p) = None
  /\ listening (step ev p) = true.
Proof.
  intros Hx Hl Hr. rewrite (step_running ev p Hx Hl).
  destruct ev as [ | [ | ] | | error | error | reason | k outcome ];
    cbn in Hr; try discriminate; injection Hr as <-;
    match goal with
    | |- context [exec (shutdown ?r) ?p0] =>
        destruct (shutdown_counts r p0) as (_ & Hc & Hs & Hx' & Hl');
        rewrite Hc, Hs, Hx', Hl'
    end;
    rewrite ?close_calls_emit; cbn; rewrite ?Nat.add_0_r; auto.
Qed.

End TraceFacts.

Import TraceFacts.

(** X10: [shutdown] is not guarded against being called again.  In a live
    process with its listeners installed, every signal, stdin event or
    process-level fault that arrives before a close has settled calls
    [shutdown] once more: the reasons pile up in order, [transport.close()]
    is called once per event, and the process has still not exited. *)
Theorem every_trigger_calls_shutdown_again
  (p : process) (evs : list event) (reasons : list string) :
  exit_code p = None ->
  listening p = true ->
  Forall2 (fun ev r => trigger_reason ev = Some r) evs reasons ->
  shutdowns (run evs p) = (shutdowns p ++ reasons)%list
  /\ close_calls (run evs p) = (close_calls p + length evs)%nat
  /\ exit_code (run evs p) = None.
Proof.
  intros Hx Hl Hall. revert p Hx Hl.
  induction Hall as [| ev r evs reasons Hr _ IH]; intros p Hx Hl.
  - cbn. rewrite app_nil_r, Nat.add_0_r. auto.
  - destruct (trigger_step ev r p Hx Hl Hr) as (Hs & Hc & Hx' & Hl').
    cbn [run]. destruct (IH (step ev p) Hx' Hl') as (Hs2 & Hc2 & Hx2).
    rewrite Hs2, Hc2, Hs, Hc, <- app_assoc. cbn.
    repeat split; [lia | exact Hx2].
Qed.

Lemma every_trigger_calls_shutdown_again_witness :
  shutdowns (run [Signal SIGINT; Signal SIGINT; UncaughtException VNull]
                 (boot ∅ (Fulfilled tt)))
  = ["SIGINT"; "SIGINT"; "uncaught exception"]
  /\ close_calls (run [Signal SIGINT; Signal SIGINT; UncaughtException VNull]
                      (boot ∅ (Fulfilled tt))) = 3%nat.
Proof.
  destruct (every_trigger_calls_shutdown_again (boot ∅ (Fulfilled tt))
              [Signal SIGINT; Signal SIGINT; UncaughtException VNull]
              ["SIGINT"; "SIGINT"; "uncaught exception"]
              eq_refl eq_refl
              ltac:(repeat constructor)) as (Hs & Hc & _).
  split; [exact Hs | exact Hc].
Defined.

(** X11: a shutdown for the reason "timeout" is never a second one: in
    every state the process can reach, "timeout" is not the reason of any
    call of [shutdown] but possibly the first. *)
Theorem timeout_is_only_ever_first
  (e : Config.env) (connect : settled unit) (evs : list event) (k : nat) :
  shutdowns (run evs (boot e connect)) !! S k <> Some "timeout".
Proof.
  intros Hk.
  pose proof (sound_timeout _ (reachable_sound e connect evs) (S k) Hk).
  discriminate.
Qed.

(* ===================================================================== *)
(** ** Further properties of the traces of the server *)
(* ===================================================================== *)

Module ServeFacts.
Import Js Runtime Handler HandlerFacts Lifecycle LifecycleFacts.
Import Server ServerFacts TraceFacts.










Section WithUpstream.

Variable create : ResponseCreateParams -> settled Response.









End WithUpstream.

End ServeFacts.

Import ServeFacts.



